(** * EdDSA over the twisted Edwards curve of bn256

    A shallow embedding of [crypto/signature/eddsa/bn256/eddsa.go]:
    key derivation ([New]), signing ([Sign]) and verification ([Verify]).

    The Go packages the file imports are not part of the source tree.  They
    enter the development as interfaces (type classes) over which [New],
    [Sign] and [Verify] are written:
      - [Field]  for [gurvy/bn256/fr],
      - [Curve]  for [gurvy/bn256/twistededwards],
      - [Hash]   for the standard interface [hash.Hash],
      - [Hash512] for [blake2b.Sum512].
    The pieces of the Go standard library whose behaviour the code relies on
    ([math/big], [encoding/binary], slices) are written out.  Concrete
    instances (the bn256 scalar field, its twisted Edwards curve, BLAKE2b)
    follow the generic code; they are used to run it. *)

From Stdlib Require Import ZArith Lia String.
From Bignums Require Import BigZ.
From stdpp Require Import base option list numbers.

Local Open Scope Z_scope.

(** ** Bytes, big integers, slices *)

(** A byte is an integer in [0, 256). *)
Abbreviation byte := Z (only parsing).

(** [big.Int.SetBytes]: the buffer is a big-endian unsigned integer. *)
Definition SetBytes (buf : list byte) : Z :=
  foldl (λ acc b, acc * 256 + b) 0 buf.

(** Value of a byte string read least significant byte first. *)
Fixpoint le_bytes (bs : list byte) : Z :=
  match bs with
  | [] => 0
  | b :: bs => b + 256 * le_bytes bs
  end.

(** [big.Int.Mod]: Euclidean modulus; a zero modulus panics. *)
Definition big_Mod (x m : Z) : option Z :=
  if decide (m = 0) then None else Some (x mod Z.abs m).

(** Indexing a slice: an index out of range is a run-time panic, [None]. *)
Definition slice_get (s : list byte) (i : nat) : option byte := s !! i.

Definition slice_set (s : list byte) (i : nat) (v : byte) : option (list byte) :=
  if decide (i < length s)%nat then Some (<[i := v]> s) else None.

(** ** Errors *)

(** Go's [error] values met by the package: its own [errNotOnCurve], and the
    errors handed back by [binary.Write] or by the hash's [Write]. *)
Inductive error : Type :=
| errNotOnCurve
| errOther (msg : string).

(** ** encoding/binary *)

Inductive ByteOrder := BigEndian | LittleEndian.

(** The values [binary.Write] may be handed.  Fixed-size unsigned integers
    and arrays of fixed-size values are accepted; a platform-sized [int] is
    not a fixed-size value. *)
#[warnings="-register-all"]
Inductive GoData : Type :=
| DUint8 (v : Z)
| DUint16 (v : Z)
| DUint32 (v : Z)
| DUint64 (v : Z)
| DArray (elems : list GoData)
| DInt (v : Z).

(** [n] bytes of [v], most significant first ([PutUint64] and the like). *)
Fixpoint be_split (n : nat) (v : Z) : list byte :=
  match n with
  | O => []
  | S n => Z.land (Z.shiftr v (8 * Z.of_nat n)) 0xFF :: be_split n v
  end.

Definition put_uint (order : ByteOrder) (n : nat) (v : Z) : list byte :=
  match order with
  | BigEndian => be_split n v
  | LittleEndian => rev (be_split n v)
  end.

(** [dataSize]: the encoded size, [None] for a value that is not fixed-size. *)
Fixpoint dataSize (d : GoData) : option nat :=
  match d with
  | DUint8 _ => Some 1%nat
  | DUint16 _ => Some 2%nat
  | DUint32 _ => Some 4%nat
  | DUint64 _ => Some 8%nat
  | DArray elems =>
      foldr (λ e acc, s ← dataSize e; n ← acc; Some (s + n)%nat) (Some 0%nat) elems
  | DInt _ => None
  end.

(** [encoder.value]: array elements are written in index order. *)
Fixpoint encode (order : ByteOrder) (d : GoData) : list byte :=
  match d with
  | DUint8 v => put_uint order 1 v
  | DUint16 v => put_uint order 2 v
  | DUint32 v => put_uint order 4 v
  | DUint64 v => put_uint order 8 v
  | DArray elems => foldr (λ e acc, encode order e ++ acc) [] elems
  | DInt _ => []
  end.

(** [binary.Write(buf, order, data)] on a [bytes.Buffer] holding [buf]:
    the new contents of the buffer and the error. *)
Definition binary_Write (buf : list byte) (order : ByteOrder) (data : GoData)
  : list byte * option error :=
  match dataSize data with
  | None => (buf, Some (errOther "binary.Write: invalid type"))
  | Some _ => (buf ++ encode order data, None)
  end.

(** ** Data model *)

(** [fr.Element] is [[4]uint64], least significant limb first. *)
Record Element : Type := mkElement { l0 : Z; l1 : Z; l2 : Z; l3 : Z }.

Definition limbs (z : Element) : list Z := [l0 z; l1 z; l2 z; l3 z].

(** The zero value of the type. *)
Definition Element_zero : Element := mkElement 0 0 0 0.

(** An [fr.Element] as seen by [encoding/binary]. *)
Definition Element_data (z : Element) : GoData := DArray (DUint64 <$> limbs z).

(** [Element.Equal]: limb-wise comparison. *)
Definition Equal (z x : Element) : bool :=
  bool_decide (l3 z = l3 x) && bool_decide (l2 z = l2 x)
  && bool_decide (l1 z = l1 x) && bool_decide (l0 z = l0 x).

(** [twistededwards.Point] *)
Record Point : Type := mkPoint { X : Element; Y : Element }.

Definition Point_zero : Point := mkPoint Element_zero Element_zero.

(** [Signature]: [R] a curve point, [S] a field element. *)
Record Signature : Type := mkSignature { sig_R : Point; sig_S : Element }.

Definition Signature_zero : Signature := mkSignature Point_zero Element_zero.

(** [PublicKey]: the point [A] and the hash handle [HFunc].  [HFunc] is an
    interface value that refers to a mutable hash object; the field holds the
    current state of that object, and the functions below return the state
    they leave it in. *)
Record PublicKey (hstate : Type) : Type :=
  mkPublicKey { pub_A : Point; pub_HFunc : hstate }.
Arguments mkPublicKey {hstate} _ _.
Arguments pub_A {hstate} _.
Arguments pub_HFunc {hstate} _.

(** [PrivateKey]: [randSrc [32]byte] and the secret [scalar]. *)
Record PrivateKey : Type :=
  mkPrivateKey { priv_randSrc : list byte; priv_scalar : Element }.

(** ** The imported packages, as interfaces *)

(** [gurvy/bn256/fr] *)
Class Field : Type := {
  SetBigInt : Z → Element;
  FromMont : Element → Element;
  ToBigInt : Element → Z;
  ToBigIntRegular : Element → Z;
  Bytes : Element → list byte
}.

(** [twistededwards.CurveParams], the fields the package reads. *)
Record CurveParams : Type :=
  mkCurveParams { Cofactor : Element; Order : Z; Base : Point }.

(** [gurvy/bn256/twistededwards].  The receiver of the Go methods is the
    result; the scalar of [ScalarMul] is a [*big.Int]. *)
Class Curve : Type := {
  GetEdwardsCurve : CurveParams;
  Add : Point → Point → Point;
  ScalarMul : Point → Z → Point;
  IsOnCurve : Point → bool
}.

(** [hash.Hash] over the states of the hash object.  [Hash_Write] returns
    the new state and the error, if any; [Hash_Sum b] appends the digest to
    [b] and leaves the state as it is. *)
Class Hash (hstate : Type) : Type := {
  Hash_Reset : hstate → hstate;
  Hash_Write : hstate → list byte → hstate * option string;
  Hash_Sum : hstate → list byte → list byte
}.

(** [blake2b.Sum512] *)
Class Hash512 : Type := { Sum512 : list byte → list byte }.

(** ** The package *)

Section Eddsa.

Context {fld : Field} {crv : Curve} {h512 : Hash512}.
Context {hstate : Type} {hfunc : Hash hstate}.

(** [GetCurveParams] *)
Definition GetCurveParams : CurveParams := GetEdwardsCurve.

(** *** New *)

(** [for i := 0; i < 32; i++ { priv.randSrc[i] = h[i+32] }] on the arrays
    [priv.randSrc [32]byte] (zero at first) and [h [64]byte].  On arrays of
    these lengths every index of [New] is in range. *)
Definition New_randSrc (h : list byte) : list byte :=
  foldl (λ r i, <[i := h !!! (i + 32)%nat]> r) (replicate 32 0) (seq 0 32).

(** The pruning of the key: [h[0] &= 0xF8; h[31] &= 0x7F; h[31] |= 0x40]. *)
Definition prune (h : list byte) : list byte :=
  let h := <[0%nat := Z.land (h !!! 0%nat) 0xF8]> h in
  let h := <[31%nat := Z.land (h !!! 31%nat) 0x7F]> h in
  <[31%nat := Z.lor (h !!! 31%nat) 0x40]> h.

(** [for i, j := 0, 32; i < j; i, j = i+1, j-1 { h[i], h[j] = h[j], h[i] }];
    [fuel] bounds the number of iterations. *)
Fixpoint reverse_loop (fuel : nat) (i j : nat) (h : list byte) : list byte :=
  match fuel with
  | O => h
  | S fuel =>
      if decide (i < j)%nat
      then reverse_loop fuel (i + 1) (j - 1) (<[j := h !!! i]> (<[i := h !!! j]> h))
      else h
  end.

(** The integer [tmp] of [New]: prune, reverse, [tmp.SetBytes(h[:32])]. *)
Definition New_tmp (h : list byte) : Z :=
  let h := prune h in
  let h := reverse_loop 64 0 32 h in
  SetBytes (take 32 h).

Definition New (seed : list byte) (hFunc : hstate) : PublicKey hstate * PrivateKey :=
  let c := GetCurveParams in
  let h := Sum512 seed in
  let randSrc := New_randSrc h in
  let tmp := New_tmp h in
  let scalar := FromMont (SetBigInt tmp) in
  let A := ScalarMul (Base c) tmp in
  (mkPublicKey A hFunc, mkPrivateKey randSrc scalar).

(** *** The challenge H(R, A, M) *)

(** [for i := 0; i < len(data); i++ { bytes := data[i].Bytes();
     if _, err := pub.HFunc.Write(bytes[:]); err != nil { return ..., err } }]:
    the state the hash is left in and the error that stopped the loop. *)
Fixpoint write_loop (hs : hstate) (data : list Element) : hstate * option string :=
  match data with
  | [] => (hs, None)
  | d :: data =>
      let '(hs, err) := Hash_Write hs (Bytes d) in
      match err with
      | Some e => (hs, Some e)
      | None => write_loop hs data
      end
  end.

(** The challenge as [Sign] computes it (from [data := ...] to
    [hramInt.SetBytes(hramBin)]), for the point [R] just computed. *)
Definition Sign_hram (R : Point) (message : Element) (pub : PublicKey hstate)
  : hstate * (string + Z) :=
  let data := [X R; Y R; X (pub_A pub); Y (pub_A pub); message] in
  let hs := Hash_Reset (pub_HFunc pub) in
  let '(hs, err) := write_loop hs data in
  match err with
  | Some e => (hs, inl e)
  | None =>
      let hramBin := Hash_Sum hs [] in
      (hs, inr (SetBytes hramBin))
  end.

(** The challenge as [Verify] computes it (from [data := ...] to
    [hram.SetBytes(hramBin)]). *)
Definition Verify_hram (sig : Signature) (message : Element) (pub : PublicKey hstate)
  : hstate * (string + Z) :=
  let data := [X (sig_R sig); Y (sig_R sig); X (pub_A pub); Y (pub_A pub); message] in
  let hs := Hash_Reset (pub_HFunc pub) in
  let '(hs, err) := write_loop hs data in
  match err with
  | Some e => (hs, inl e)
  | None =>
      let hramBin := Hash_Sum hs [] in
      let hram := SetBytes hramBin in
      (hs, inr hram)
  end.

(** *** Sign *)

(** [for i, v := range priv.randSrc { randSrc[i] = v }] *)
Definition range_copy (randSrc src : list byte) : option (list byte) :=
  foldl (λ acc iv, r ← acc; slice_set r iv.1 iv.2) (Some randSrc) (imap pair src).

(** [for i := 0; i < 32; i++ { randSrc[32+i] = bufb[i] }] *)
Definition fill_message (randSrc bufb : list byte) : option (list byte) :=
  foldl (λ acc i, r ← acc; v ← slice_get bufb i; slice_set r (32 + i) v)
        (Some randSrc) (seq 0 32).

(** The buffer [randSrc = privKey.randSrc || msg] of [Sign]: [inl err] when
    [binary.Write] fails, [None] when an index is out of range. *)
Definition Sign_randSrc (message : Element) (priv : PrivateKey)
  : option (error + list byte) :=
  let randSrc := replicate 64 0 in
  randSrc ← range_copy randSrc (priv_randSrc priv);
  let '(buf, err) := binary_Write [] BigEndian (Element_data message) in
  match err with
  | Some e => Some (inl e)
  | None =>
      let bufb := buf in
      randSrc ← fill_message randSrc bufb;
      Some (inr randSrc)
  end.

(** [randBytes := blake2b.Sum512(randSrc[:]); randScalarInt.SetBytes(randBytes[:32])] *)
Definition Sign_randScalarInt (randSrc : list byte) : Z :=
  let randBytes := Sum512 randSrc in
  SetBytes (take 32 randBytes).

(** [Sign]: the returned pair and the state the hash object of [pub] is left
    in; [None] is a run-time panic. *)
Definition Sign (message : Element) (pub : PublicKey hstate) (priv : PrivateKey)
  : option (Signature * option error * hstate) :=
  let curveParams := GetCurveParams in
  let res := Signature_zero in
  r ← Sign_randSrc message priv;
  match r with
  | inl err => Some (res, Some err, pub_HFunc pub)
  | inr randSrc =>
      let randScalarInt := Sign_randScalarInt randSrc in
      let R := ScalarMul (Base curveParams) randScalarInt in
      if negb (IsOnCurve R) then Some (Signature_zero, Some errNotOnCurve, pub_HFunc pub)
      else
        match Sign_hram R message pub with
        | (hs, inl e) => Some (Signature_zero, Some (errOther e), hs)
        | (hs, inr hramInt) =>
            let sInt := ToBigInt (priv_scalar priv) in
            hramInt ← big_Mod (hramInt * sInt + randScalarInt) (Order curveParams);
            Some (mkSignature R (SetBigInt hramInt), None, hs)
        end
  end.

(** *** Verify *)

(** [lhs = cofactor*S*Base] *)
Definition Verify_lhs (sig : Signature) : Point :=
  let curveParams := GetCurveParams in
  let bCofactor := ToBigInt (Cofactor curveParams) in
  let SFromMont := ToBigIntRegular (sig_S sig) in
  ScalarMul (ScalarMul (Base curveParams) SFromMont) bCofactor.

(** [rhs = cofactor*(R + H(R,A,M)*A)] *)
Definition Verify_rhs (sig : Signature) (A : Point) (hram : Z) : Point :=
  let curveParams := GetCurveParams in
  let bCofactor := ToBigInt (Cofactor curveParams) in
  ScalarMul (Add (ScalarMul A hram) (sig_R sig)) bCofactor.

(** [Verify]: the returned pair and the state the hash object is left in. *)
Definition Verify (sig : Signature) (message : Element) (pub : PublicKey hstate)
  : bool * option error * hstate :=
  if negb (IsOnCurve (pub_A pub)) then (false, Some errNotOnCurve, pub_HFunc pub)
  else
    match Verify_hram sig message pub with
    | (hs, inl e) => (false, Some (errOther e), hs)
    | (hs, inr hram) =>
        let lhs := Verify_lhs sig in
        if negb (IsOnCurve lhs) then (false, Some errNotOnCurve, hs)
        else
          let rhs := Verify_rhs sig (pub_A pub) hram in
          if negb (IsOnCurve rhs) then (false, Some errNotOnCurve, hs)
          else if negb (Equal (X lhs) (X rhs)) || negb (Equal (Y lhs) (Y rhs))
          then (false, None, hs)
          else (true, None, hs)
    end.

(** *** The challenge computation, as the specification words it *)

(** Value of a byte string read as an unsigned integer, first byte most
    significant. *)
Fixpoint unsigned_of_bytes (bs : list byte) : Z :=
  match bs with
  | [] => 0
  | b :: bs => b * 256 ^ Z.of_nat (length bs) + unsigned_of_bytes bs
  end.

(** Absorb one encoding unless an earlier absorb failed. *)
Definition absorb (st : hstate * option string) (enc : list byte)
  : hstate * option string :=
  match st with
  | (hs, Some e) => (hs, Some e)
  | (hs, None) => Hash_Write hs enc
  end.

(** Reset the hash; absorb the encodings of [R.x, R.y, A.x, A.y, message] in
    that order; finalize; read the digest as an unsigned integer. *)
Definition ChallengeComputation (R A : Point) (message : Element) (hs : hstate)
  : hstate * (string + Z) :=
  let st := (Hash_Reset hs, None) in
  let st := absorb st (Bytes (X R)) in
  let st := absorb st (Bytes (Y R)) in
  let st := absorb st (Bytes (X A)) in
  let st := absorb st (Bytes (Y A)) in
  let st := absorb st (Bytes message) in
  match st with
  | (hs, Some e) => (hs, inl e)
  | (hs, None) => (hs, inr (unsigned_of_bytes (Hash_Sum hs [])))
  end.

(** *** Notions used to state the properties *)

(** [Verify(Sign(m, pub, priv), m, pub)] where [(pub, priv) = New(seed, hFunc)]:
    the error of [Sign] and the pair returned by [Verify].  The public key
    handed to [Verify] refers to the hash object as [Sign] left it. *)
Definition round_trip (seed : list byte) (hFunc : hstate) (message : Element)
  : option (option error * (bool * option error)) :=
  let '(pub, priv) := New seed hFunc in
  '(sig, err, hs) ← Sign message pub priv;
  Some (err, (Verify sig message (mkPublicKey (pub_A pub) hs)).1).

End Eddsa.

(** The bytes [binary.Write] produces for an [fr.Element] in big-endian
    order: limb after limb, least significant limb first, each limb most
    significant byte first. *)
Definition limb_bytes (z : Element) : list byte :=
  be_split 8 (l0 z) ++ be_split 8 (l1 z) ++ be_split 8 (l2 z) ++ be_split 8 (l3 z).

(** The clamping of RFC 8032 on a 256-bit scalar: top bit clear, next bit
    set, three lowest bits clear. *)
Definition clamped (s : Z) : bool :=
  negb (Z.testbit s 255) && Z.testbit s 254 && bool_decide (Z.land s 7 = 0).

(** The values Go's types allow: the limbs of an [fr.Element] are [uint64]s,
    the elements of a [[]byte] are below 256. *)
Definition uint64_limbs (z : Element) : Prop :=
  Forall (λ l, 0 ≤ l < 2 ^ 64) (limbs z).

Definition byte_string (bs : list byte) : Prop :=
  Forall (λ b, 0 ≤ b < 256) bs.

(** ** BLAKE2b-512

    [golang.org/x/crypto/blake2b] is not part of the source tree; this is
    the unkeyed BLAKE2b of RFC 7693 with a 64-byte digest, which [Sum512]
    computes.  Words are 64-bit integers with their wrap-around written out. *)

Module Blake2b.

Definition add64 (x y : Z) : Z := (x + y) mod 2 ^ 64.

Definition rotr64 (x n : Z) : Z :=
  Z.lor (Z.shiftr x n) (Z.land (Z.shiftl x (64 - n)) (Z.ones 64)).

Definition iv : list Z :=
  [ 0x6a09e667f3bcc908; 0xbb67ae8584caa73b; 0x3c6ef372fe94f82b; 0xa54ff53a5f1d36f1;
    0x510e527fade682d1; 0x9b05688c2b3e6c1f; 0x1f83d9abfb41bd6b; 0x5be0cd19137e2179 ].

Definition sigma : list (list nat) :=
  [ [ 0; 1; 2; 3; 4; 5; 6; 7; 8; 9; 10; 11; 12; 13; 14; 15];
    [14; 10; 4; 8; 9; 15; 13; 6; 1; 12; 0; 2; 11; 7; 5; 3];
    [11; 8; 12; 0; 5; 2; 15; 13; 10; 14; 3; 6; 7; 1; 9; 4];
    [ 7; 9; 3; 1; 13; 12; 11; 14; 2; 6; 5; 10; 4; 0; 15; 8];
    [ 9; 0; 5; 7; 2; 4; 10; 15; 14; 1; 11; 12; 6; 8; 3; 13];
    [ 2; 12; 6; 10; 0; 11; 8; 3; 4; 13; 7; 5; 15; 14; 1; 9];
    [12; 5; 1; 15; 14; 13; 4; 10; 0; 7; 6; 3; 9; 2; 8; 11];
    [13; 11; 7; 14; 12; 1; 3; 9; 5; 0; 15; 4; 8; 6; 2; 10];
    [ 6; 15; 14; 9; 11; 3; 0; 8; 12; 2; 13; 7; 1; 4; 10; 5];
    [10; 2; 8; 4; 7; 6; 1; 5; 15; 11; 9; 14; 3; 12; 13; 0] ]%nat.

(** The mixing function on the working vector [v]. *)
Definition G (v : list Z) (a b c d : nat) (x y : Z) : list Z :=
  let v := <[a := add64 (add64 (v !!! a) (v !!! b)) x]> v in
  let v := <[d := rotr64 (Z.lxor (v !!! d) (v !!! a)) 32]> v in
  let v := <[c := add64 (v !!! c) (v !!! d)]> v in
  let v := <[b := rotr64 (Z.lxor (v !!! b) (v !!! c)) 24]> v in
  let v := <[a := add64 (add64 (v !!! a) (v !!! b)) y]> v in
  let v := <[d := rotr64 (Z.lxor (v !!! d) (v !!! a)) 16]> v in
  let v := <[c := add64 (v !!! c) (v !!! d)]> v in
  <[b := rotr64 (Z.lxor (v !!! b) (v !!! c)) 63]> v.

Definition round (m : list Z) (v : list Z) (r : nat) : list Z :=
  let s : list nat := sigma !!! (r mod 10)%nat in
  let w (i : nat) : Z := m !!! (s !!! i) in
  let v := G v 0 4 8 12 (w 0%nat) (w 1%nat) in
  let v := G v 1 5 9 13 (w 2%nat) (w 3%nat) in
  let v := G v 2 6 10 14 (w 4%nat) (w 5%nat) in
  let v := G v 3 7 11 15 (w 6%nat) (w 7%nat) in
  let v := G v 0 5 10 15 (w 8%nat) (w 9%nat) in
  let v := G v 1 6 11 12 (w 10%nat) (w 11%nat) in
  let v := G v 2 7 8 13 (w 12%nat) (w 13%nat) in
  G v 3 4 9 14 (w 14%nat) (w 15%nat).

(** The [n] little-endian bytes of a word. *)
Fixpoint le_split (n : nat) (w : Z) : list byte :=
  match n with
  | O => []
  | S n => (w mod 256) :: le_split n (w / 256)
  end.

(** The [n] little-endian 64-bit words of a block. *)
Fixpoint words (n : nat) (bs : list byte) : list Z :=
  match n with
  | O => []
  | S n => le_bytes (take 8 bs) :: words n (drop 8 bs)
  end.

(** The compression function F: chaining value [h], 128-byte [block], byte
    counter [t], last-block flag. *)
Definition compress (h : list Z) (block : list byte) (t : Z) (final : bool) : list Z :=
  let m := words 16 block in
  let v := h ++ iv in
  let v := <[12%nat := Z.lxor (v !!! 12%nat) (t mod 2 ^ 64)]> v in
  let v := <[13%nat := Z.lxor (v !!! 13%nat) (t / 2 ^ 64)]> v in
  let v := if final then <[14%nat := Z.lxor (v !!! 14%nat) (Z.ones 64)]> v else v in
  let v := foldl (round m) v (seq 0 12) in
  zip_with Z.lxor (zip_with Z.lxor h (take 8 v)) (drop 8 v).

(** All blocks but the last. *)
Fixpoint absorb_blocks (n : nat) (h : list Z) (t : Z) (msg : list byte)
  : list Z * Z * list byte :=
  match n with
  | O => (h, t, msg)
  | S n =>
      absorb_blocks n (compress h (take 128 msg) (t + 128) false) (t + 128) (drop 128 msg)
  end.

Definition Sum512 (msg : list byte) : list byte :=
  let h0 := <[0%nat := Z.lxor (iv !!! 0%nat) 0x01010040]> iv in
  let n := ((length msg - 1) / 128)%nat in
  let '(h, t, rest) := absorb_blocks n h0 0 msg in
  let last := rest ++ replicate (128 - length rest) 0 in
  let h := compress h last (t + Z.of_nat (length rest)) true in
  mjoin (le_split 8 <$> h).

End Blake2b.

#[global] Instance blake2b_Hash512 : Hash512 := {| Sum512 := Blake2b.Sum512 |}.

(** ** Hash objects *)

(** The hash object of [blake2b.New512(nil)]: the state is the input absorbed
    since the last reset; [Write] never fails. *)
#[global] Instance blake2b_Hash : Hash (list byte) := {|
  Hash_Reset _ := [];
  Hash_Write hs p := (hs ++ p, None);
  Hash_Sum hs b := b ++ Blake2b.Sum512 hs
|}.

(** A test double: a hash object whose digest is fixed, whatever it is fed. *)
Inductive fixed_state : Type := Fixed (digest : list byte).

#[global] Instance fixed_Hash : Hash fixed_state := {|
  Hash_Reset st := st;
  Hash_Write st _ := (st, None);
  Hash_Sum '(Fixed digest) b := b ++ digest
|}.

(** A hash object whose [Write] fails. *)
#[global] Instance failing_Hash : Hash unit := {|
  Hash_Reset _ := ();
  Hash_Write _ _ := ((), Some "write failed"%string);
  Hash_Sum _ b := b
|}.

(** ** The scalar field of bn256 and its twisted Edwards curve

    [gurvy/bn256/fr] and [gurvy/bn256/twistededwards] are not part of the
    source tree.  The field is the prime field of order [q]; an element is
    kept in Montgomery form, [x * 2^256 mod q], on four limbs.  The curve is
    [a*x^2 + y^2 = 1 + d*x^2*y^2] over that field, with the library's
    constants.  Field arithmetic runs on [bigZ]. *)

Module Bn256.

(** The modulus of [fr]. *)
Definition q : Z :=
  21888242871839275222246405745257275088548364400416034343698204186575808495617.

(** The Montgomery radix and its inverse modulo [q]. *)
Definition radix : Z := 2 ^ 256.
Definition radix_inv : Z :=
  9915499612839321149637521777990102151350674507940716049588462388200839649614.

(** The integer held by the limbs. *)
Definition raw (z : Element) : Z :=
  l0 z + 2 ^ 64 * l1 z + 2 ^ 128 * l2 z + 2 ^ 192 * l3 z.

Definition of_raw (v : Z) : Element :=
  mkElement (v mod 2 ^ 64) ((v / 2 ^ 64) mod 2 ^ 64)
            ((v / 2 ^ 128) mod 2 ^ 64) ((v / 2 ^ 192) mod 2 ^ 64).

(** The field element a limb vector in Montgomery form stands for. *)
Definition regular (z : Element) : Z := (raw z * radix_inv) mod q.

(** The Montgomery form of a field element. *)
Definition mont (x : Z) : Element := of_raw ((x * radix) mod q).

#[global] Instance fr : Field := {|
  SetBigInt v := mont (v mod q);
  FromMont z := of_raw (regular z);
  ToBigInt z := raw z;
  ToBigIntRegular z := regular z;
  Bytes z := be_split 32 (regular z)
|}.

(** Curve constants. *)
Definition a : Z := 168700.
Definition d : Z := 168696.
Definition order : Z :=
  2736030358979909402780800718157159386076813972158567259200215660948447373041.
Definition base_x : Z :=
  5299619240641551281634865583518297030282874472190772894086521144482721001553.
Definition base_y : Z :=
  16950150798460657717958625567821834550301663161624707787222815936182638968203.

Definition affine (p : Point) : Z * Z := (regular (X p), regular (Y p)).
Definition point (xy : Z * Z) : Point := mkPoint (mont xy.1) (mont xy.2).

Section Arith.
Local Open Scope bigZ_scope.

Definition bq : bigZ := BigZ.of_Z q.
Definition ba : bigZ := BigZ.of_Z a.
Definition bd : bigZ := BigZ.of_Z d.

(** [x^k mod q] by square and multiply; the inverse is [x^(q-2)]. *)
Fixpoint fpow (x : bigZ) (k : positive) : bigZ :=
  match k with
  | xH => x mod bq
  | xO k => let r := fpow x k in (r * r) mod bq
  | xI k => let r := fpow x k in (r * r * x) mod bq
  end.

Definition finv (x : bigZ) : bigZ :=
  match (q - 2)%Z with
  | Zpos k => fpow x k
  | _ => 0
  end.

Definition fdiv (x y : bigZ) : bigZ := (x * finv y) mod bq.

(** The addition law, affine:
    [(x,y) + (u,v) = ((x*v + y*u)/(1 + d*x*y*u*v), (y*v - a*x*u)/(1 - d*x*y*u*v))]. *)
Definition affine_add (p1 p2 : bigZ * bigZ) : bigZ * bigZ :=
  let '(x, y) := p1 in
  let '(u, v) := p2 in
  let xv := (x * v) mod bq in
  let yu := (y * u) mod bq in
  let xu := (x * u * ba) mod bq in
  let yv := (y * v) mod bq in
  let dxyuv := (xv * yu * bd) mod bq in
  (fdiv ((xv + yu) mod bq) ((1 + dxyuv) mod bq),
   fdiv ((yv - xu) mod bq) ((1 - dxyuv) mod bq)).

(** The same law on projective coordinates [(X : Y : Z)], [x = X/Z], [y = Y/Z]. *)
Definition proj_add (p1 p2 : bigZ * bigZ * bigZ) : bigZ * bigZ * bigZ :=
  let '(x1, y1, z1) := p1 in
  let '(x2, y2, z2) := p2 in
  let A := (z1 * z2) mod bq in
  let B := (A * A) mod bq in
  let C := (x1 * x2) mod bq in
  let D := (y1 * y2) mod bq in
  let E := (bd * C * D) mod bq in
  let F := (B - E) mod bq in
  let G := (B + E) mod bq in
  let H := ((x1 + y1) * (x2 + y2) - C - D) mod bq in
  ((A * F * H) mod bq, (A * G * (D - ba * C)) mod bq, (F * G) mod bq).

(** Double and add over the bits of the scalar, most significant first. *)
Fixpoint proj_mul (p : bigZ * bigZ * bigZ) (k : positive) : bigZ * bigZ * bigZ :=
  match k with
  | xH => p
  | xO k => let r := proj_mul p k in proj_add r r
  | xI k => let r := proj_mul p k in proj_add (proj_add r r) p
  end.

Definition scalar_mul (p : bigZ * bigZ) (k : Z) : bigZ * bigZ :=
  match k with
  | Zpos k => let '(x, y, z) := proj_mul (p.1, p.2, 1) k in (fdiv x z, fdiv y z)
  | _ => (0, 1)
  end.

Definition on_curve (p : bigZ * bigZ) : bool :=
  let '(x, y) := p in
  BigZ.eqb ((ba * x * x + y * y) mod bq) ((1 + bd * x * x * y * y) mod bq).

End Arith.

Definition to_big (xy : Z * Z) : bigZ * bigZ := (BigZ.of_Z xy.1, BigZ.of_Z xy.2).
Definition of_big (xy : bigZ * bigZ) : Z * Z := (BigZ.to_Z xy.1, BigZ.to_Z xy.2).

#[global] Instance curve : Curve := {|
  GetEdwardsCurve :=
    mkCurveParams (mkElement 8 0 0 0) order (point (base_x, base_y));
  Add p1 p2 := point (of_big (affine_add (to_big (affine p1)) (to_big (affine p2))));
  ScalarMul p k := point (of_big (scalar_mul (to_big (affine p)) k));
  IsOnCurve p := on_curve (to_big (affine p))
|}.

End Bn256.

(** ** An idealised curve package

    The contract signing and verification rely on, realised on the integers
    modulo [n]: a point stands for a residue, [ScalarMul] multiplies it,
    [Add] adds, the base point is the residue 1 of order [n], and the field
    of [fr.Element] is the integers modulo the same [n], the group order. *)

Module Ideal.

Definition n : Z := Bn256.order.

Definition val (P : Point) : Z := l0 (X P).
Definition point (k : Z) : Point := mkPoint (mkElement k 0 0 0) Element_zero.

Definition fr : Field := {|
  SetBigInt v := mkElement (v mod n) 0 0 0;
  FromMont z := z;
  ToBigInt z := l0 z;
  ToBigIntRegular z := l0 z;
  Bytes z := be_split 32 (l0 z)
|}.

Definition curve : Curve := {|
  GetEdwardsCurve := mkCurveParams (mkElement 8 0 0 0) n (point 1);
  Add P Q := point ((val P + val Q) mod n);
  ScalarMul P k := point ((val P * k) mod n);
  IsOnCurve _ := true
|}.

End Ideal.

(** ** Concrete inputs *)

(** The all-zero seed and a seed whose first byte is 7. *)
Definition seed0 : list byte := replicate 32 0.
Definition seed7 : list byte := 7 :: replicate 31 0.

(** The field element 1 ([SetOne]), as a message. *)
Definition msg_one : Element := Bn256.mont 1.

(** The key pair [New] derives from [seed0], for a BLAKE2b hash object. *)
Definition pub0 : PublicKey (list byte) := (New seed0 []).1.
Definition priv0 : PrivateKey := (New seed0 ([] : list byte)).2.

(** A point off the curve: with [(x, y)] the affine coordinates of [pub0]'s
    point, [(-1/(d*x*y^2), 1/(d*x^2*y))]. *)
Definition forged_R : Point :=
  let '(x, y) := Bn256.to_big (Bn256.affine (pub_A pub0)) in
  Bn256.point (Bn256.of_big
    (Bn256.fdiv (-1) (Bn256.bd * x * y * y), Bn256.fdiv 1 (Bn256.bd * x * x * y)))%bigZ.

(** A signature with that [R] and [S = 0]. *)
Definition forged_sig : Signature := mkSignature forged_R Element_zero.

(** [pub0]'s point with a hash object whose digest is the single byte 1. *)
Definition pub0_fixed : PublicKey fixed_state := mkPublicKey (pub_A pub0) (Fixed [1]).

(** The key pair [New] derives from [seed7], the signature [Sign] returns
    for [msg_one] under it, the bytes the hash object has absorbed when
    [Sign] returns, and the challenge. *)
Definition pub7 : PublicKey (list byte) := (New seed7 []).1.
Definition priv7 : PrivateKey := (New seed7 ([] : list byte)).2.

Definition sig7 : Signature :=
  Eval vm_compute in
    match Sign msg_one pub7 priv7 with
    | Some (sig, _, _) => sig
    | None => Signature_zero
    end.

Definition absorbed7 : list byte :=
  Bytes (X (sig_R sig7)) ++ Bytes (Y (sig_R sig7))
  ++ Bytes (X (pub_A pub7)) ++ Bytes (Y (pub_A pub7)) ++ Bytes msg_one.

Definition hram7 : Z := SetBytes (Blake2b.Sum512 absorbed7).

(** A public key whose point is the zero value of [Point], off the curve. *)
Definition pub_zero : PublicKey (list byte) := mkPublicKey Point_zero [].



(** A private key with the [randSrc] of [priv7] and a zero scalar, and the
    limbs of [msg_one] written out. *)
Definition priv7_bare : PrivateKey :=
  mkPrivateKey (drop 32 (Sum512 seed7)) Element_zero.

Definition msg_one_limbs : Element :=
  mkElement 0xac96341c4ffffffb 0x36fc76959f60cd29 0x666ea36f7879462e
    0x0e0a77c19a07df2f.

(** In the idealised package: a key point, a nonce point, the bytes the
    hash object absorbs for them and [msg_one], and the challenge. *)
Definition ideal_A : Point := Ideal.point 11.
Definition ideal_R : Point := Ideal.point 3.
Definition ideal_absorbed : list byte :=
  @Bytes Ideal.fr (X ideal_R) ++ @Bytes Ideal.fr (Y ideal_R)
  ++ @Bytes Ideal.fr (X ideal_A) ++ @Bytes Ideal.fr (Y ideal_A)
  ++ @Bytes Ideal.fr msg_one.
Definition ideal_hram : Z := SetBytes (Blake2b.Sum512 ideal_absorbed).

(** * Properties *)

(** ** Byte strings and loops *)

Lemma SetBytes_snoc (bs : list byte) (b : byte) :
  SetBytes (bs ++ [b]) = SetBytes bs * 256 + b.
Proof. unfold SetBytes. by rewrite foldl_snoc. Qed.

(** Parsing the reversed buffer big-endian reads the buffer little-endian. *)
Lemma SetBytes_rev (bs : list byte) : SetBytes (rev bs) = le_bytes bs.
Proof.
  induction bs as [|b bs IH]; [done|].
  simpl. rewrite SetBytes_snoc, IH. lia.
Qed.

Lemma unsigned_of_bytes_snoc (bs : list byte) (b : byte) :
  unsigned_of_bytes (bs ++ [b]) = unsigned_of_bytes bs * 256 + b.
Proof.
  induction bs as [|c bs IH]; simpl; [lia|].
  rewrite IH, length_app. simpl.
  replace (Z.of_nat (length bs + 1)) with (Z.of_nat (length bs) + 1) by lia.
  rewrite Z.pow_add_r by lia. lia.
Qed.

Lemma SetBytes_unsigned (bs : list byte) : SetBytes bs = unsigned_of_bytes bs.
Proof.
  induction bs as [|b bs IH] using rev_ind; [done|].
  by rewrite SetBytes_snoc, unsigned_of_bytes_snoc, IH.
Qed.

Lemma SetBytes_nonneg (bs : list byte) : Forall (λ b, 0 ≤ b) bs → 0 ≤ SetBytes bs.
Proof.
  induction bs as [|b bs IH] using rev_ind; [done|].
  rewrite Forall_app, Forall_singleton. intros [Hbs Hb].
  rewrite SetBytes_snoc. specialize (IH Hbs). lia.
Qed.

Lemma le_bytes_nonneg (bs : list byte) : Forall (λ b, 0 ≤ b) bs → 0 ≤ le_bytes bs.
Proof. induction 1 as [|b bs Hb Hbs IH]; simpl; lia. Qed.

Lemma be_split_length (n : nat) (v : Z) : length (be_split n v) = n.
Proof. induction n; simpl; auto. Qed.

Lemma limb_bytes_length (z : Element) : length (limb_bytes z) = 32%nat.
Proof. unfold limb_bytes. by rewrite !length_app, !be_split_length. Qed.

(** Splits a list of known length into its elements. *)
Tactic Notation "explode" ident(l) ident(Hlen) integer(n) :=
  do n (destruct l as [|? l]; [discriminate Hlen|]);
  destruct l; [|discriminate Hlen].

Lemma Equal_true (z x : Element) : Equal z x = true ↔ z = x.
Proof.
  unfold Equal. rewrite !andb_true_iff, !bool_decide_eq_true.
  destruct z, x; simpl. split.
  - intros [[[-> ->] ->] ->]. done.
  - intros [= -> -> -> ->]. done.
Qed.

Lemma Equal_refl (z : Element) : Equal z z = true.
Proof. by apply Equal_true. Qed.

Lemma Point_eq (p r : Point) : X p = X r → Y p = Y r → p = r.
Proof. destruct p, r; simpl. by intros -> ->. Qed.

Lemma binary_Write_Element (z : Element) :
  binary_Write [] BigEndian (Element_data z) = (limb_bytes z, None).
Proof.
  unfold binary_Write, Element_data, limbs, limb_bytes.
  cbn [fmap list_fmap dataSize foldr mbind option_bind encode put_uint app].
  by rewrite app_nil_r.
Qed.

Section Facts.

Context {fld : Field} {crv : Curve} {h512 : Hash512}.
Context {hstate : Type} {hfunc : Hash hstate}.

(** *** The loops of [New] *)

(** The reversal loop stops by itself: fuel beyond half the distance between
    the two indices changes nothing. *)
Lemma reverse_loop_fuel (fuel fuel' i j : nat) (h : list byte) :
  (j ≤ i + 2 * fuel)%nat → (fuel ≤ fuel')%nat →
  reverse_loop fuel' i j h = reverse_loop fuel i j h.
Proof.
  revert fuel' i j h. induction fuel as [|fuel IH]; intros fuel' i j h Hj Hf.
  - destruct fuel' as [|fuel']; [done|]. simpl.
    destruct (decide (i < j)%nat); [lia|done].
  - destruct fuel' as [|fuel']; [lia|]. simpl.
    destruct (decide (i < j)%nat); [|done].
    apply IH; lia.
Qed.

(** Started at [0, 32] the loop reverses the 33 bytes [h[0..32]]: the first
    32 bytes of the result are [h[32], h[31], ..., h[1]]. *)
Lemma reverse_loop_64 (h : list byte) :
  length h = 64%nat →
  take 32 (reverse_loop 64 0 32 h) = rev (take 32 (drop 1 h)).
Proof.
  intros Hlen. explode h Hlen 64.
  vm_compute. reflexivity.
Qed.

Lemma prune_length (h : list byte) : length (prune h) = length h.
Proof. unfold prune. by rewrite !length_insert. Qed.

(** The integer of [New] is the little-endian value of bytes 1 to 32 of the
    pruned digest. *)
Lemma New_tmp_bytes (h : list byte) :
  length h = 64%nat →
  New_tmp h = le_bytes (take 32 (drop 1 (prune h))).
Proof.
  intros Hlen. unfold New_tmp.
  rewrite reverse_loop_64 by (by rewrite prune_length).
  apply SetBytes_rev.
Qed.

(** Those bytes, in terms of the digest. *)
Lemma scalar_bytes (h : list byte) :
  length h = 64%nat →
  take 32 (drop 1 (prune h))
  = take 30 (drop 1 h) ++ [Z.lor (Z.land (h !!! 31%nat) 0x7F) 0x40; h !!! 32%nat].
Proof.
  intros Hlen. explode h Hlen 64.
  reflexivity.
Qed.

Lemma New_randSrc_drop (h : list byte) :
  length h = 64%nat → New_randSrc h = drop 32 h.
Proof.
  intros Hlen. explode h Hlen 64.
  vm_compute. reflexivity.
Qed.

Lemma New_randSrc_length (h : list byte) : length (New_randSrc h) = 32%nat.
Proof.
  unfold New_randSrc.
  assert (∀ (l : list nat) (r : list byte),
    length (foldl (λ r i, <[i := h !!! (i + 32)%nat]> r) r l) = length r) as Hf.
  { induction l as [|i l IH]; intros r; simpl; [done|]. by rewrite IH, length_insert. }
  by rewrite Hf, length_replicate.
Qed.

Lemma New_tmp_nonneg (h : list byte) :
  length h = 64%nat → Forall (λ b, 0 ≤ b) h → 0 ≤ New_tmp h.
Proof.
  intros Hlen Hb. rewrite New_tmp_bytes, scalar_bytes by done.
  apply le_bytes_nonneg. rewrite Forall_app. split.
  - by apply Forall_take, Forall_drop.
  - repeat constructor.
    + apply Z.lor_nonneg. split; [|lia]. apply Z.land_nonneg. lia.
    + eapply Forall_lookup_1; [exact Hb|].
      apply list_lookup_lookup_total_lt. lia.
Qed.

(** *** The buffer hashed into the nonce *)

Lemma range_copy_32 (src : list byte) :
  length src = 32%nat →
  range_copy (replicate 64 0) src = Some (src ++ replicate 32 0).
Proof.
  intros Hlen. explode src Hlen 32.
  vm_compute. reflexivity.
Qed.

Lemma fill_message_64 (randSrc bufb : list byte) :
  length randSrc = 64%nat → length bufb = 32%nat →
  fill_message randSrc bufb = Some (take 32 randSrc ++ bufb).
Proof.
  intros Hlen Hb. explode randSrc Hlen 64. explode bufb Hb 32.
  vm_compute. reflexivity.
Qed.

(** What [Sign] hashes: [priv.randSrc] followed by the limbs of the message
    as [binary.Write] lays them out. *)
Lemma Sign_randSrc_bytes (message : Element) (priv : PrivateKey) :
  length (priv_randSrc priv) = 32%nat →
  Sign_randSrc message priv = Some (inr (priv_randSrc priv ++ limb_bytes message)).
Proof.
  intros Hlen. unfold Sign_randSrc.
  rewrite range_copy_32 by done. cbn [mbind option_bind].
  rewrite binary_Write_Element.
  rewrite fill_message_64.
  - by rewrite take_app_length'.
  - rewrite length_app, length_replicate. lia.
  - apply limb_bytes_length.
Qed.

(** *** The challenge *)

Lemma foldl_absorb_error (hs : hstate) (e : string) (encs : list (list byte)) :
  foldl absorb (hs, Some e) encs = (hs, Some e).
Proof. induction encs; simpl; auto. Qed.

(** The write loop absorbs the encodings in order and stops at the first
    error. *)
Lemma write_loop_foldl (hs : hstate) (data : list Element) :
  write_loop hs data = foldl absorb (hs, None) (Bytes <$> data).
Proof.
  revert hs. induction data as [|d data IH]; intros hs; [done|].
  cbn [write_loop fmap list_fmap foldl absorb].
  destruct (Hash_Write hs (Bytes d)) as [hs' [e|]].
  - by rewrite foldl_absorb_error.
  - apply IH.
Qed.

Lemma Sign_hram_spec (R : Point) (message : Element) (pub : PublicKey hstate) :
  Sign_hram R message pub
  = ChallengeComputation R (pub_A pub) message (pub_HFunc pub).
Proof.
  unfold Sign_hram, ChallengeComputation.
  rewrite write_loop_foldl. cbn [fmap list_fmap foldl].
  destruct (absorb _ (Bytes message)) as [hs [e|]]; [done|].
  by rewrite SetBytes_unsigned.
Qed.

Lemma Verify_hram_spec (sig : Signature) (message : Element) (pub : PublicKey hstate) :
  Verify_hram sig message pub
  = ChallengeComputation (sig_R sig) (pub_A pub) message (pub_HFunc pub).
Proof.
  unfold Verify_hram, ChallengeComputation.
  rewrite write_loop_foldl. cbn [fmap list_fmap foldl].
  destruct (absorb _ (Bytes message)) as [hs [e|]]; [done|].
  by rewrite SetBytes_unsigned.
Qed.

End Facts.

(** ** Verification *)

Section Verification.

Context {fld : Field} {crv : Curve} {h512 : Hash512}.
Context {hstate : Type} {hfunc : Hash hstate}.

(** [Verify] after a successful challenge computation on an on-curve key:
    the three remaining tests, in the order the code runs them. *)
Lemma Verify_unfold (sig : Signature) (message : Element) (pub : PublicKey hstate)
    (hs : hstate) (hram : Z) :
  IsOnCurve (pub_A pub) = true →
  ChallengeComputation (sig_R sig) (pub_A pub) message (pub_HFunc pub) = (hs, inr hram) →
  Verify sig message pub =
    if negb (IsOnCurve (Verify_lhs sig)) then (false, Some errNotOnCurve, hs)
    else if negb (IsOnCurve (Verify_rhs sig (pub_A pub) hram))
    then (false, Some errNotOnCurve, hs)
    else if negb (Equal (X (Verify_lhs sig)) (X (Verify_rhs sig (pub_A pub) hram)))
            || negb (Equal (Y (Verify_lhs sig)) (Y (Verify_rhs sig (pub_A pub) hram)))
    then (false, None, hs)
    else (true, None, hs).
Proof.
  intros HA Hc. unfold Verify.
  rewrite HA, Verify_hram_spec, Hc. reflexivity.
Qed.

(** C2: for an on-curve public key [A] and a challenge [hram] computed from
    (R, A, message), [Verify] compares [lhs = cofactor * (S * Base)] with
    [rhs = cofactor * (R + hram * A)].  With [lhs] on the curve it accepts
    exactly when both coordinates agree; when [rhs] is on the curve too and
    a coordinate differs, it returns [(false, nil)], without error. *)
Theorem C2_verify_equation (sig : Signature) (message : Element)
    (pub : PublicKey hstate) (hs : hstate) (hram : Z) :
  IsOnCurve (pub_A pub) = true →
  ChallengeComputation (sig_R sig) (pub_A pub) message (pub_HFunc pub) = (hs, inr hram) →
  let cofactor := ToBigInt (Cofactor GetCurveParams) in
  let lhs :=
    ScalarMul (ScalarMul (Base GetCurveParams) (ToBigIntRegular (sig_S sig))) cofactor in
  let rhs := ScalarMul (Add (ScalarMul (pub_A pub) hram) (sig_R sig)) cofactor in
  IsOnCurve lhs = true →
  (Verify sig message pub = (true, None, hs) ↔ X lhs = X rhs ∧ Y lhs = Y rhs)
  ∧ (IsOnCurve rhs = true → ¬ (X lhs = X rhs ∧ Y lhs = Y rhs) →
     Verify sig message pub = (false, None, hs)).
Proof.
  intros HA Hc cofactor lhs rhs Hl.
  rewrite (Verify_unfold _ _ _ _ _ HA Hc).
  change (Verify_lhs sig) with lhs.
  change (Verify_rhs sig (pub_A pub) hram) with rhs.
  rewrite Hl. cbn [negb].
  assert (Equal (X lhs) (X rhs) && Equal (Y lhs) (Y rhs) = true
          ↔ X lhs = X rhs ∧ Y lhs = Y rhs) as Heq
    by (by rewrite andb_true_iff, !Equal_true).
  rewrite <- negb_andb.
  destruct (Equal (X lhs) (X rhs) && Equal (Y lhs) (Y rhs)); cbn [negb].
  - assert (rhs = lhs) as -> by (symmetry; apply Point_eq; by apply Heq).
    rewrite Hl. cbn [negb]. split; [tauto|].
    intros _ Hne. destruct Hne. by apply Heq.
  - assert (¬ (X lhs = X rhs ∧ Y lhs = Y rhs)) as Hne
      by (intros E; apply Heq in E; discriminate E).
    split.
    + split; [|tauto]. destruct (IsOnCurve rhs); discriminate.
    + intros Hr _. by rewrite Hr.
Qed.

(** C8: a public key whose point fails the on-curve test makes [Verify]
    return [(false, errNotOnCurve)], whatever the signature and the message;
    the hash object is left untouched, so no challenge was computed. *)
Theorem C8_offcurve_key_rejected (sig : Signature) (message : Element)
    (pub : PublicKey hstate) :
  IsOnCurve (pub_A pub) = false →
  Verify sig message pub = (false, Some errNotOnCurve, pub_HFunc pub).
Proof. intros HA. unfold Verify. by rewrite HA. Qed.

(** C6: the challenge of [Sign] and the challenge of [Verify] are the same
    computation: reset the hash, absorb the encodings of R.x, R.y, A.x, A.y
    and the message in that order, finalize, and read the digest as an
    unsigned integer, which is not reduced.  When resetting the hash object
    forgets its state, [Verify] computes that challenge whatever state the
    object was left in. *)
Theorem C6_challenge_shared (sig : Signature) (message : Element)
    (pub : PublicKey hstate) :
  Sign_hram (sig_R sig) message pub
    = ChallengeComputation (sig_R sig) (pub_A pub) message (pub_HFunc pub)
  ∧ Verify_hram sig message pub
    = ChallengeComputation (sig_R sig) (pub_A pub) message (pub_HFunc pub)
  ∧ Sign_hram (sig_R sig) message pub = Verify_hram sig message pub
  ∧ ((∀ hs hs' : hstate, Hash_Reset hs = Hash_Reset hs') →
     ∀ hs : hstate,
       Verify_hram sig message (mkPublicKey (pub_A pub) hs)
       = Sign_hram (sig_R sig) message pub).
Proof.
  rewrite Sign_hram_spec, Verify_hram_spec. do 3 (split; [done|]).
  intros Hreset hs. rewrite Verify_hram_spec. cbn [pub_A pub_HFunc].
  unfold ChallengeComputation. by rewrite (Hreset hs (pub_HFunc pub)).
Qed.

End Verification.

(** ** Signing *)

Lemma big_Mod_pos (x m : Z) : 0 < m → big_Mod x m = Some (x mod m).
Proof.
  intros Hm. unfold big_Mod.
  destruct (decide (m = 0)); [lia|]. by rewrite Z.abs_eq by lia.
Qed.

Section Signing.

Context {fld : Field} {crv : Curve} {h512 : Hash512}.
Context {hstate : Type} {hfunc : Hash hstate}.

(** C3: [Sign] returns a signature without error exactly when its buffer is
    built, R = nonce * Base is on the curve and the challenge computation
    succeeds; the signature is then (R, S) with
    S = SetBigInt ((nonce + challenge * scalar) mod Order), where nonce is
    the integer read from the hash of the buffer, challenge the unreduced
    challenge integer and scalar the integer held by [priv.scalar]. *)
Theorem C3_sign_response (message : Element) (pub : PublicKey hstate)
    (priv : PrivateKey) (sig : Signature) (hs : hstate) :
  0 < Order GetCurveParams →
  (Sign message pub priv = Some (sig, None, hs) ↔
   ∃ (randSrc : list byte) (hram : Z),
     let nonce := SetBytes (take 32 (Sum512 randSrc)) in
     let R := ScalarMul (Base GetCurveParams) nonce in
     Sign_randSrc message priv = Some (inr randSrc)
     ∧ IsOnCurve R = true
     ∧ ChallengeComputation R (pub_A pub) message (pub_HFunc pub) = (hs, inr hram)
     ∧ sig = mkSignature R
               (SetBigInt ((nonce + hram * ToBigInt (priv_scalar priv))
                           mod Order GetCurveParams))).
Proof.
  intros HO. unfold Sign.
  destruct (Sign_randSrc message priv) as [[e|randSrc]|] eqn:Hr; cbn [mbind option_bind].
  - split; [discriminate|]. intros (? & ? & ? & _). discriminate.
  - unfold Sign_randScalarInt.
    set (nonce := SetBytes (take 32 (Sum512 randSrc))).
    set (R := ScalarMul (Base GetCurveParams) nonce).
    rewrite Sign_hram_spec.
    destruct (IsOnCurve R) eqn:HR; cbn [negb].
    + destruct (ChallengeComputation R (pub_A pub) message (pub_HFunc pub))
        as [hs' [e|hram]] eqn:Hc.
      * split; [discriminate|].
        intros (randSrc' & hram' & [= <-] & _ & Hc' & _).
        fold nonce R in Hc'. rewrite Hc in Hc'. discriminate.
      * rewrite big_Mod_pos by done. cbn [mbind option_bind].
        replace (hram * ToBigInt (priv_scalar priv) + nonce)
          with (nonce + hram * ToBigInt (priv_scalar priv)) by lia.
        split.
        -- intros [= <- <-]. exists randSrc, hram. cbn zeta. fold nonce R. done.
        -- intros (randSrc' & hram' & [= <-] & _ & Hc' & ->).
           fold nonce R in Hc'. rewrite Hc in Hc'. injection Hc' as <- <-. done.
    + split; [discriminate|].
      intros (randSrc' & hram' & [= <-] & HR' & _).
      fold nonce R in HR'. congruence.
  - split; [discriminate|]. intros (? & ? & ? & _). discriminate.
Qed.

(** C10: for every message, [binary.Write] of the field element succeeds
    and produces exactly 32 bytes; each [bufb[i]], 0 <= i < 32, is in range;
    the copy into [randSrc[32..63]] does not panic; and for a 32-byte
    [priv.randSrc] the buffer of [Sign] is built, 64 bytes long. *)
Theorem C10_message_bytes_total (message : Element) :
  ∃ bufb : list byte,
    binary_Write [] BigEndian (Element_data message) = (bufb, None)
    ∧ length bufb = 32%nat
    ∧ (∀ i : nat, (i < 32)%nat → is_Some (slice_get bufb i))
    ∧ (∀ randSrc : list byte, length randSrc = 64%nat →
         fill_message randSrc bufb = Some (take 32 randSrc ++ bufb))
    ∧ (∀ priv : PrivateKey, length (priv_randSrc priv) = 32%nat →
         ∃ buf : list byte,
           Sign_randSrc message priv = Some (inr buf) ∧ length buf = 64%nat).
Proof.
  exists (limb_bytes message).
  pose proof (limb_bytes_length message) as Hlen.
  split; [apply binary_Write_Element|].
  split; [done|].
  split; [|split].
  - intros i Hi. unfold slice_get. apply lookup_lt_is_Some. lia.
  - intros randSrc Hr. by apply fill_message_64.
  - intros priv Hp. exists (priv_randSrc priv ++ limb_bytes message).
    split; [by apply Sign_randSrc_bytes|].
    rewrite length_app. lia.
Qed.

End Signing.

(** ** What [New] and [Sign] derive *)

Section Derivation.

Context {fld : Field} {crv : Curve} {h512 : Hash512}.
Context {hstate : Type} {hfunc : Hash hstate}.

(** X2: the key pair of [New], for a 64-byte digest [h] of the seed: the secret
    integer is the little-endian value of [h[1..30]], the pruned [h[31]] and
    [h[32]]; [randSrc] is [h[32..63]]. *)
Theorem New_key_pair (seed : list byte) (hFunc : hstate) :
  length (Sum512 seed) = 64%nat →
  let h := Sum512 seed in
  let tmp :=
    le_bytes (take 30 (drop 1 h)
              ++ [Z.lor (Z.land (h !!! 31%nat) 0x7F) 0x40; h !!! 32%nat]) in
  New seed hFunc =
    (mkPublicKey (ScalarMul (Base GetCurveParams) tmp) hFunc,
     mkPrivateKey (drop 32 h) (FromMont (SetBigInt tmp))).
Proof.
  intros Hlen h tmp. unfold New. fold h.
  rewrite New_randSrc_drop, New_tmp_bytes, scalar_bytes by done.
  reflexivity.
Qed.

(** X3: the point R of a signature [Sign] returns without error, for a 32-byte
    [randSrc]: the nonce is read from the first 32 bytes of the hash of
    [randSrc] followed by the limbs of the message. *)
Theorem Sign_nonce_point (message : Element) (pub : PublicKey hstate)
    (priv : PrivateKey) (sig : Signature) (hs : hstate) :
  length (priv_randSrc priv) = 32%nat →
  Sign message pub priv = Some (sig, None, hs) →
  sig_R sig =
    ScalarMul (Base GetCurveParams)
      (SetBytes (take 32 (Sum512 (priv_randSrc priv ++ limb_bytes message)))).
Proof.
  intros Hlen. unfold Sign.
  rewrite Sign_randSrc_bytes by done. cbn [mbind option_bind].
  unfold Sign_randScalarInt.
  destruct (IsOnCurve _); cbn [negb]; [|discriminate].
  destruct (Sign_hram _ message pub) as [hs' [e|hram]]; [discriminate|].
  destruct (big_Mod _ _); cbn [mbind option_bind]; [|discriminate].
  by intros [= <- _].
Qed.

End Derivation.

(** ** Round trip *)

(** The response of [Sign] for a scalar [s] congruent to [tmp]. *)
Lemma response_congruent (O s tmp hram nonce c : Z) :
  0 < O → s mod O = tmp mod O →
  ((hram * s + nonce) mod O * c) mod O = ((tmp * hram + nonce) * c) mod O.
Proof.
  intros HO Hkey. rewrite Z.mul_mod_idemp_l by lia.
  assert (∃ k, s = tmp + k * O) as [k ->].
  { exists (s / O - tmp / O).
    rewrite (Z.div_mod s O) at 1 by lia.
    rewrite (Z.div_mod tmp O) at 1 by lia.
    rewrite Hkey. ring. }
  replace ((hram * (tmp + k * O) + nonce) * c)
    with ((tmp * hram + nonce) * c + (hram * k * c) * O) by ring.
  apply Z_mod_plus_full.
Qed.

Section RoundTrip.

Context {fld : Field} {crv : Curve} {h512 : Hash512}.
Context {hstate : Type} {hfunc : Hash hstate}.

(** The contract of the curve package, on the multiples of the base point:
    multiplication by non-negative scalars is an action of the integers,
    equal scalars modulo [Order] give equal multiples, and the multiples are
    on the curve. *)
Hypothesis ScalarMul_mul : ∀ a b : Z, 0 ≤ a → 0 ≤ b →
  ScalarMul (ScalarMul (Base GetCurveParams) a) b
  = ScalarMul (Base GetCurveParams) (a * b).
Hypothesis ScalarMul_add : ∀ a b : Z, 0 ≤ a → 0 ≤ b →
  Add (ScalarMul (Base GetCurveParams) a) (ScalarMul (Base GetCurveParams) b)
  = ScalarMul (Base GetCurveParams) (a + b).
Hypothesis Base_order : ∀ a b : Z, 0 ≤ a → 0 ≤ b →
  a mod Order GetCurveParams = b mod Order GetCurveParams →
  ScalarMul (Base GetCurveParams) a = ScalarMul (Base GetCurveParams) b.
Hypothesis Base_on_curve : ∀ a : Z, 0 ≤ a →
  IsOnCurve (ScalarMul (Base GetCurveParams) a) = true.
Hypothesis Order_pos : 0 < Order GetCurveParams.
Hypothesis Cofactor_nonneg : 0 ≤ ToBigInt (Cofactor GetCurveParams).

(** The contract of the field package: integers below [Order] survive the
    conversion into an element and back. *)
Hypothesis SetBigInt_regular : ∀ v : Z, 0 ≤ v < Order GetCurveParams →
  ToBigIntRegular (SetBigInt v) = v.

(** The contract of the hashes: digests are byte strings, resetting the hash
    object forgets its state, and writing to it does not fail. *)
Hypothesis Sum512_bytes : ∀ m : list byte, Forall (λ b, 0 ≤ b) (Sum512 m).
Hypothesis Hash_Sum_bytes : ∀ hs : hstate, Forall (λ b, 0 ≤ b) (Hash_Sum hs []).
Hypothesis Hash_Reset_fresh : ∀ hs hs' : hstate, Hash_Reset hs = Hash_Reset hs'.
Hypothesis Hash_Write_ok : ∀ (hs : hstate) (p : list byte), (Hash_Write hs p).2 = None.

Lemma challenge_total (R A : Point) (m : Element) (hs : hstate) :
  ∃ hs' hram, ChallengeComputation R A m hs = (hs', inr hram) ∧ 0 ≤ hram.
Proof.
  unfold ChallengeComputation.
  assert (∀ st enc, st.2 = None → (absorb st enc).2 = None) as Hab.
  { intros [hs0 [e|]] enc; simpl; [done|]. intros _. apply Hash_Write_ok. }
  match goal with
  | |- context [absorb ?st (Bytes m)] =>
      pose proof (Hab _ (Bytes m) (Hab _ (Bytes (Y A)) (Hab _ (Bytes (X A))
        (Hab _ (Bytes (Y R)) (Hab (Hash_Reset hs, None) (Bytes (X R)) eq_refl))))) as Hn;
      destruct (absorb st (Bytes m)) as [hs' [e|]]
  end; [discriminate Hn|].
  eexists _, _. split; [done|].
  rewrite <- SetBytes_unsigned. apply SetBytes_nonneg, Hash_Sum_bytes.
Qed.

Lemma challenge_reset (R A : Point) (m : Element) (hs hs' : hstate) :
  ChallengeComputation R A m hs = ChallengeComputation R A m hs'.
Proof. unfold ChallengeComputation. by rewrite (Hash_Reset_fresh hs hs'). Qed.

(** X1: round trip, under the contracts above: when the scalar kept in the
    private key is congruent modulo [Order] to the integer the public key
    was computed from, [Sign] succeeds and [Verify] accepts its signature. *)
Theorem round_trip_consistent_key (seed : list byte) (hFunc : hstate)
    (message : Element) :
  length (Sum512 seed) = 64%nat →
  ToBigInt (FromMont (SetBigInt (New_tmp (Sum512 seed)))) mod Order GetCurveParams
    = New_tmp (Sum512 seed) mod Order GetCurveParams →
  round_trip seed hFunc message = Some (None, (true, None)).
Proof.
  intros Hlen Hkey. unfold round_trip, New.
  set (tmp := New_tmp (Sum512 seed)) in Hkey |- *.
  set (s := ToBigInt (FromMont (SetBigInt tmp))) in Hkey |- *.
  set (B := Base GetCurveParams).
  set (A := ScalarMul B tmp).
  assert (0 ≤ tmp) as Htmp by (by apply New_tmp_nonneg).
  assert (IsOnCurve A = true) as HA by (by apply Base_on_curve).
  unfold Sign. cbn [pub_A pub_HFunc priv_randSrc priv_scalar].
  rewrite Sign_randSrc_bytes by apply New_randSrc_length.
  cbn [mbind option_bind priv_randSrc].
  unfold Sign_randScalarInt.
  set (nonce := SetBytes (take 32 (Sum512 _))).
  assert (0 ≤ nonce) as Hnonce by (apply SetBytes_nonneg, Forall_take, Sum512_bytes).
  fold B. set (R := ScalarMul B nonce).
  assert (IsOnCurve R = true) as HR by (by apply Base_on_curve).
  rewrite HR. cbn [negb].
  rewrite Sign_hram_spec. cbn [pub_A pub_HFunc].
  destruct (challenge_total R A message hFunc) as (hs & hram & Hc & Hhram).
  rewrite Hc. rewrite big_Mod_pos by done. cbn [mbind option_bind].
  fold s.
  set (S := (hram * s + nonce) mod Order GetCurveParams).
  assert (0 ≤ S < Order GetCurveParams) as HS by (apply Z.mod_pos_bound; done).
  unfold Verify. cbn [pub_A pub_HFunc sig_R sig_S].
  rewrite HA. cbn [negb].
  rewrite Verify_hram_spec. cbn [pub_A pub_HFunc sig_R].
  rewrite (challenge_reset R A message hs hFunc), Hc.
  unfold Verify_lhs, Verify_rhs. cbn [sig_S sig_R].
  set (c := ToBigInt (Cofactor GetCurveParams)).
  rewrite SetBigInt_regular by done. fold B.
  assert (ScalarMul (ScalarMul B S) c = ScalarMul B (S * c)) as ->
    by (apply ScalarMul_mul; lia).
  assert (ScalarMul (Add (ScalarMul A hram) R) c = ScalarMul B (S * c)) as ->.
  { assert (0 ≤ tmp * hram) by (by apply Z.mul_nonneg_nonneg).
    assert (0 ≤ S * c) by (apply Z.mul_nonneg_nonneg; lia).
    assert (0 ≤ (tmp * hram + nonce) * c) by (apply Z.mul_nonneg_nonneg; lia).
    unfold A, R. rewrite ScalarMul_mul, ScalarMul_add, ScalarMul_mul by lia.
    apply Base_order; [done|done|].
    symmetry. by apply response_congruent. }
  rewrite Base_on_curve by (apply Z.mul_nonneg_nonneg; lia). cbn [negb].
  by rewrite !Equal_refl.
Qed.

End RoundTrip.

(** ** The outcomes of [Verify] *)

Section VerifyOutcomes.

Context {fld : Field} {crv : Curve} {h512 : Hash512}.
Context {hstate : Type} {hfunc : Hash hstate}.

(** The coordinate test of [Verify] passes exactly on equal points. *)
Lemma Equal_points (p r : Point) :
  negb (Equal (X p) (X r)) || negb (Equal (Y p) (Y r)) = false ↔ p = r.
Proof.
  rewrite <- negb_andb, negb_false_iff, andb_true_iff, !Equal_true. split.
  - intros [??]. by apply Point_eq.
  - by intros ->.
Qed.

(** X4: [Verify] returns [(true, nil)] exactly when the key point is on the
    curve, the hash object yields a challenge [hram], both sides
    [cofactor*(S*Base)] and [cofactor*(hram*A + R)] pass the curve test and
    they are the same point; the hash object is then left as the challenge
    computation left it. *)
Theorem Verify_accepts_iff (sig : Signature) (message : Element)
    (pub : PublicKey hstate) (hs : hstate) :
  Verify sig message pub = (true, None, hs) ↔
  IsOnCurve (pub_A pub) = true
  ∧ ∃ hram : Z,
      let cofactor := ToBigInt (Cofactor GetCurveParams) in
      let lhs :=
        ScalarMul (ScalarMul (Base GetCurveParams) (ToBigIntRegular (sig_S sig))) cofactor in
      let rhs := ScalarMul (Add (ScalarMul (pub_A pub) hram) (sig_R sig)) cofactor in
      ChallengeComputation (sig_R sig) (pub_A pub) message (pub_HFunc pub) = (hs, inr hram)
      ∧ IsOnCurve lhs = true ∧ IsOnCurve rhs = true ∧ lhs = rhs.
Proof.
  unfold Verify. rewrite Verify_hram_spec.
  destruct (IsOnCurve (pub_A pub)) eqn:HA; cbn [negb].
  2: { split; [discriminate|]. intros [? _]. discriminate. }
  destruct (ChallengeComputation _ _ _ _) as [hs' [e|hram]] eqn:Hc.
  { split; [discriminate|]. intros (_ & hram & [=] & _). }
  unfold Verify_lhs, Verify_rhs.
  set (cofactor := ToBigInt (Cofactor GetCurveParams)).
  set (lhs := ScalarMul (ScalarMul _ _) cofactor).
  destruct (IsOnCurve lhs) eqn:Hl; cbn [negb].
  2: { split; [discriminate|]. intros (_ & hram' & [= _ <-] & Hl' & _).
       fold cofactor lhs in Hl'. congruence. }
  set (rhs := ScalarMul (Add _ _) cofactor).
  destruct (IsOnCurve rhs) eqn:Hr; cbn [negb].
  2: { split; [discriminate|]. intros (_ & hram' & [= _ <-] & _ & Hr' & _).
       fold cofactor rhs in Hr'. congruence. }
  destruct (negb (Equal (X lhs) (X rhs)) || negb (Equal (Y lhs) (Y rhs))) eqn:He.
  - split; [discriminate|]. intros (_ & hram' & [= _ <-] & _ & _ & Heq).
    fold cofactor lhs rhs in Heq. apply Equal_points in Heq. congruence.
  - apply Equal_points in He. split.
    + intros [= <-]. split; [done|]. exists hram. cbn zeta. fold cofactor lhs rhs. done.
    + intros (_ & hram' & [= <- _] & _). done.
Qed.

(** X5: the results of [Verify].  It never returns [true] together with an
    error; its errors are [ErrNotOnCurve] and the error of a failed write to
    the hash object, the latter only after the key point passed the curve
    test. *)
Theorem Verify_result_classes (sig : Signature) (message : Element)
    (pub : PublicKey hstate) :
  ∃ hs : hstate,
    Verify sig message pub = (true, None, hs)
    ∨ Verify sig message pub = (false, None, hs)
    ∨ Verify sig message pub = (false, Some errNotOnCurve, hs)
    ∨ ∃ e : string,
        Verify sig message pub = (false, Some (errOther e), hs)
        ∧ IsOnCurve (pub_A pub) = true
        ∧ ChallengeComputation (sig_R sig) (pub_A pub) message (pub_HFunc pub)
          = (hs, inl e).
Proof.
  unfold Verify. rewrite Verify_hram_spec.
  destruct (IsOnCurve (pub_A pub)); cbn [negb]; [|eauto 6].
  destruct (ChallengeComputation _ _ _ _) as [hs [e|hram]]; [eauto 10|].
  exists hs.
  destruct (IsOnCurve (Verify_lhs sig)); cbn [negb]; [|eauto].
  destruct (IsOnCurve (Verify_rhs sig (pub_A pub) hram)); cbn [negb]; [|eauto].
  destruct (_ || _); eauto.
Qed.

End VerifyOutcomes.

(** ** The outcomes of [Sign] *)

Lemma big_Mod_nonzero (x m : Z) : m ≠ 0 → big_Mod x m = Some (x mod Z.abs m).
Proof. intros Hm. unfold big_Mod. by destruct (decide (m = 0)). Qed.

Section SignOutcomes.

Context {fld : Field} {crv : Curve} {h512 : Hash512}.
Context {hstate : Type} {hfunc : Hash hstate}.

(** [Sign] once its buffer is built, for a non-zero [Order]. *)
Lemma Sign_unfold (message : Element) (pub : PublicKey hstate) (priv : PrivateKey) :
  length (priv_randSrc priv) = 32%nat →
  Order GetCurveParams ≠ 0 →
  let nonce := SetBytes (take 32 (Sum512 (priv_randSrc priv ++ limb_bytes message))) in
  let R := ScalarMul (Base GetCurveParams) nonce in
  Sign message pub priv =
    if negb (IsOnCurve R) then Some (Signature_zero, Some errNotOnCurve, pub_HFunc pub)
    else
      match ChallengeComputation R (pub_A pub) message (pub_HFunc pub) with
      | (hs, inl e) => Some (Signature_zero, Some (errOther e), hs)
      | (hs, inr hram) =>
          Some (mkSignature R
                  (SetBigInt ((hram * ToBigInt (priv_scalar priv) + nonce)
                              mod Z.abs (Order GetCurveParams))),
                None, hs)
      end.
Proof.
  intros Hlen HO nonce R. unfold Sign.
  rewrite Sign_randSrc_bytes by done. cbn [mbind option_bind].
  unfold Sign_randScalarInt. fold nonce R.
  rewrite Sign_hram_spec.
  destruct (negb (IsOnCurve R)); [done|].
  destruct (ChallengeComputation _ _ _ _) as [hs [e|hram]]; [done|].
  by rewrite big_Mod_nonzero.
Qed.

(** X6: the results of [Sign] for a 32-byte [randSrc] and a non-zero
    [Order].  Either [R = nonce*Base] fails the curve test and [Sign] returns
    the zero signature with [ErrNotOnCurve], the hash object untouched; or a
    write to the hash object fails and [Sign] returns the zero signature
    with that error; or it returns [R] and a response reduced into
    [0, |Order|), with no error. *)
Theorem Sign_outcomes (message : Element) (pub : PublicKey hstate) (priv : PrivateKey) :
  length (priv_randSrc priv) = 32%nat →
  Order GetCurveParams ≠ 0 →
  let nonce := SetBytes (take 32 (Sum512 (priv_randSrc priv ++ limb_bytes message))) in
  let R := ScalarMul (Base GetCurveParams) nonce in
  (IsOnCurve R = false
   ∧ Sign message pub priv
     = Some (Signature_zero, Some errNotOnCurve, pub_HFunc pub))
  ∨ (IsOnCurve R = true
     ∧ ∃ (hs : hstate) (e : string),
         ChallengeComputation R (pub_A pub) message (pub_HFunc pub) = (hs, inl e)
         ∧ Sign message pub priv = Some (Signature_zero, Some (errOther e), hs))
  ∨ (IsOnCurve R = true
     ∧ ∃ (hs : hstate) (hram s : Z),
         ChallengeComputation R (pub_A pub) message (pub_HFunc pub) = (hs, inr hram)
         ∧ s = (hram * ToBigInt (priv_scalar priv) + nonce) mod Z.abs (Order GetCurveParams)
         ∧ 0 ≤ s < Z.abs (Order GetCurveParams)
         ∧ Sign message pub priv = Some (mkSignature R (SetBigInt s), None, hs)).
Proof.
  intros Hlen HO nonce R.
  rewrite (Sign_unfold message pub priv Hlen HO). fold nonce R.
  destruct (IsOnCurve R); cbn [negb]; [|by left].
  right.
  destruct (ChallengeComputation _ _ _ _) as [hs [e|hram]].
  - left. split; [done|]. by exists hs, e.
  - right. split; [done|]. eexists hs, hram, _. split; [done|]. split; [done|].
    split; [|done]. apply Z.mod_pos_bound. lia.
Qed.


End SignOutcomes.

(** ** The buffer hashed into the nonce, as a function of its inputs *)

Lemma be_split_value (n : nat) (v : Z) :
  0 ≤ v → unsigned_of_bytes (be_split n v) = v mod 256 ^ Z.of_nat n.
Proof.
  intros Hv. induction n as [|n IH].
  - simpl. by rewrite Z.mod_1_r.
  - cbn [be_split unsigned_of_bytes]. rewrite be_split_length, IH.
    change 0xFF with (Z.ones 8). rewrite Z.land_ones by lia.
    rewrite Z.shiftr_div_pow2 by lia.
    replace (2 ^ (8 * Z.of_nat n)) with (256 ^ Z.of_nat n)
      by (change 256 with (2 ^ 8); rewrite <- Z.pow_mul_r by lia; done).
    replace (Z.of_nat (S n)) with (Z.of_nat n + 1) by lia.
    rewrite Z.pow_add_r, Z.pow_1_r by lia.
    change (2 ^ 8) with 256.
    rewrite (Z.rem_mul_r v (256 ^ Z.of_nat n) 256) by lia.
    lia.
Qed.

Lemma be_split_8_inj (v w : Z) :
  0 ≤ v < 2 ^ 64 → 0 ≤ w < 2 ^ 64 → be_split 8 v = be_split 8 w → v = w.
Proof.
  intros Hv Hw Heq.
  apply (f_equal unsigned_of_bytes) in Heq.
  rewrite !be_split_value in Heq by lia.
  change (256 ^ Z.of_nat 8) with (2 ^ 64) in Heq.
  by rewrite !Z.mod_small in Heq.
Qed.

Lemma limb_bytes_inj (z x : Element) :
  uint64_limbs z → uint64_limbs x → limb_bytes z = limb_bytes x → z = x.
Proof.
  unfold uint64_limbs, limbs, limb_bytes.
  intros Hz Hx Heq.
  apply Forall_cons_1 in Hz as [Hz0 Hz]. apply Forall_cons_1 in Hz as [Hz1 Hz].
  apply Forall_cons_1 in Hz as [Hz2 Hz]. apply Forall_cons_1 in Hz as [Hz3 _].
  apply Forall_cons_1 in Hx as [Hx0 Hx]. apply Forall_cons_1 in Hx as [Hx1 Hx].
  apply Forall_cons_1 in Hx as [Hx2 Hx]. apply Forall_cons_1 in Hx as [Hx3 _].
  apply app_inj_1 in Heq as [H0 Heq]; [|by rewrite !be_split_length].
  apply app_inj_1 in Heq as [H1 Heq]; [|by rewrite !be_split_length].
  apply app_inj_1 in Heq as [H2 H3]; [|by rewrite !be_split_length].
  apply be_split_8_inj in H0, H1, H2, H3; try done.
  destruct z, x; simpl in *. congruence.
Qed.

(** X8: the buffer [Sign] hashes into the nonce determines [randSrc] and
    the message: two 32-byte [randSrc] and two messages with the same
    buffer are equal. *)
Theorem Sign_randSrc_injective (m1 m2 : Element) (priv1 priv2 : PrivateKey)
    (buf : list byte) :
  length (priv_randSrc priv1) = 32%nat → length (priv_randSrc priv2) = 32%nat →
  uint64_limbs m1 → uint64_limbs m2 →
  Sign_randSrc m1 priv1 = Some (inr buf) →
  Sign_randSrc m2 priv2 = Some (inr buf) →
  priv_randSrc priv1 = priv_randSrc priv2 ∧ m1 = m2.
Proof.
  intros H1 H2 Hm1 Hm2.
  rewrite !Sign_randSrc_bytes by done.
  intros [= <-] [= Heq].
  apply app_inj_1 in Heq as [Hr Hm]; [|congruence].
  split; [done|]. by apply limb_bytes_inj.
Qed.

(** ** The secret integer of [New] *)

Lemma le_bytes_app (l1 l2 : list byte) :
  le_bytes (l1 ++ l2) = le_bytes l1 + 256 ^ Z.of_nat (length l1) * le_bytes l2.
Proof.
  induction l1 as [|b l1 IH]; cbn [app le_bytes length].
  - change (256 ^ Z.of_nat 0) with 1. lia.
  - rewrite IH. replace (Z.of_nat (S (length l1))) with (Z.of_nat (length l1) + 1) by lia.
    rewrite Z.pow_add_r, Z.pow_1_r by lia. lia.
Qed.

Lemma le_bytes_bound (l : list byte) :
  byte_string l → 0 ≤ le_bytes l < 256 ^ Z.of_nat (length l).
Proof.
  induction 1 as [|b l Hb Hl IH]; cbn [le_bytes length].
  - change (256 ^ Z.of_nat 0) with 1. lia.
  - replace (Z.of_nat (S (length l))) with (Z.of_nat (length l) + 1) by lia.
    rewrite Z.pow_add_r, Z.pow_1_r by lia. lia.
Qed.

(** The pruned byte [(b & 0x7F) | 0x40] lies in [64, 128). *)
Lemma pruned_byte_range (b : Z) :
  0 ≤ b < 256 → 64 ≤ Z.lor (Z.land b 0x7F) 0x40 < 128.
Proof.
  intros Hb.
  assert (forallb (λ n, let c := Z.lor (Z.land (Z.of_nat n) 0x7F) 0x40 in
                        (64 <=? c) && (c <? 128)) (seq 0 256) = true) as Hall
    by (vm_compute; reflexivity).
  rewrite forallb_forall in Hall.
  specialize (Hall (Z.to_nat b)). rewrite Z2Nat.id in Hall by lia.
  cbn zeta in Hall. rewrite andb_true_iff, Z.leb_le, Z.ltb_lt in Hall.
  apply Hall. apply in_seq. lia.
Qed.

Lemma byte_string_lookup (h : list byte) (i : nat) :
  byte_string h → (i < length h)%nat → 0 ≤ h !!! i < 256.
Proof.
  intros Hb Hi. unfold byte_string in Hb. rewrite Forall_lookup in Hb.
  apply (Hb i). by apply list_lookup_lookup_total_lt.
Qed.

Section NewInteger.

Context {fld : Field} {crv : Curve} {h512 : Hash512}.
Context {hstate : Type}.

Lemma New_tmp_split (h : list byte) :
  length h = 64%nat → byte_string h →
  ∃ low : Z,
    0 ≤ low < 2 ^ 240
    ∧ New_tmp h = low + 2 ^ 240 * (Z.lor (Z.land (h !!! 31%nat) 0x7F) 0x40
                                   + 256 * (h !!! 32%nat)).
Proof.
  intros Hlen Hb. exists (le_bytes (take 30 (drop 1 h))).
  assert (length (take 30 (drop 1 h)) = 30%nat) as Hl
    by (rewrite length_take, length_drop; lia).
  split.
  - pose proof (le_bytes_bound (take 30 (drop 1 h))) as Hbd.
    rewrite Hl in Hbd. change (256 ^ Z.of_nat 30) with (2 ^ 240) in Hbd.
    apply Hbd. by apply Forall_take, Forall_drop.
  - rewrite New_tmp_bytes, scalar_bytes by done.
    rewrite le_bytes_app, Hl. change (256 ^ Z.of_nat 30) with (2 ^ 240).
    cbn [le_bytes]. lia.
Qed.

(** X9: the integer [tmp] that [New] multiplies the base point by and
    stores in the private key.  For a 64-byte digest it lies in
    [2^246, 2^256), its bit 246 is set and its bit 247 is clear (the pruned
    byte [h[31]] is its byte 30), and its top byte is [h[32]], which is also
    the first byte of [priv.randSrc]. *)
Theorem New_secret_integer (seed : list byte) (hFunc : hstate) :
  length (Sum512 seed) = 64%nat → byte_string (Sum512 seed) →
  ∃ tmp : Z,
    pub_A (New seed hFunc).1 = ScalarMul (Base GetCurveParams) tmp
    ∧ priv_scalar (New seed hFunc).2 = FromMont (SetBigInt tmp)
    ∧ 2 ^ 246 ≤ tmp < 2 ^ 256
    ∧ Z.testbit tmp 246 = true
    ∧ Z.testbit tmp 247 = false
    ∧ tmp / 2 ^ 248 = priv_randSrc (New seed hFunc).2 !!! 0%nat.
Proof.
  intros Hlen Hb. exists (New_tmp (Sum512 seed)).
  split; [done|]. split; [done|].
  destruct (New_tmp_split _ Hlen Hb) as (low & Hlow & ->).
  set (h := Sum512 seed) in *.
  assert (0 ≤ h !!! 32%nat < 256) as H32 by (apply byte_string_lookup; [done|lia]).
  assert (0 ≤ h !!! 31%nat < 256) as H31 by (apply byte_string_lookup; [done|lia]).
  pose proof (pruned_byte_range _ H31) as Hc.
  set (c := Z.lor (Z.land (h !!! 31%nat) 0x7F) 0x40) in *.
  assert (priv_randSrc (New seed hFunc).2 !!! 0%nat = h !!! 32%nat) as ->.
  { cbn [New snd priv_randSrc]. fold h. rewrite New_randSrc_drop by done.
    rewrite lookup_total_drop. done. }
  set (x := h !!! 32%nat) in *. clearbody c x. clear -Hlow Hc H32.
  assert (∀ k, 0 ≤ k → (low + 2 ^ 240 * (c + 256 * x)) / 2 ^ (240 + k)
                       = (c + 256 * x) / 2 ^ k) as Hdiv.
  { intros k Hk. rewrite Z.pow_add_r, <- Z.div_div by lia.
    f_equal. rewrite Z.add_comm, Z.mul_comm, Z.div_add_l by lia.
    rewrite (Z.div_small low) by lia. lia. }
  split; [|split; [|split]].
  - change (2 ^ 246) with (2 ^ 240 * 64). change (2 ^ 256) with (2 ^ 240 * 65536). nia.
  - apply Z.testbit_true; [lia|]. change 246 with (240 + 6). rewrite Hdiv by lia.
    change (2 ^ 6) with 64. clear Hdiv Hlow. Z.div_mod_to_equations. lia.
  - apply Z.testbit_false; [lia|]. change 247 with (240 + 7). rewrite Hdiv by lia.
    change (2 ^ 7) with 128. clear Hdiv Hlow. Z.div_mod_to_equations. lia.
  - change 248 with (240 + 8). rewrite Hdiv by lia. change (2 ^ 8) with 256.
    clear Hdiv Hlow. Z.div_mod_to_equations. lia.
Qed.

End NewInteger.

(** ** [Verify] on multiples of the base point *)

Section Malleability.

Context {fld : Field} {crv : Curve} {h512 : Hash512}.
Context {hstate : Type} {hfunc : Hash hstate}.

(** The part of the curve package's contract the left-hand side needs. *)
Hypothesis ScalarMul_mul : ∀ a b : Z, 0 ≤ a → 0 ≤ b →
  ScalarMul (ScalarMul (Base GetCurveParams) a) b
  = ScalarMul (Base GetCurveParams) (a * b).
Hypothesis Base_order : ∀ a b : Z, 0 ≤ a → 0 ≤ b →
  a mod Order GetCurveParams = b mod Order GetCurveParams →
  ScalarMul (Base GetCurveParams) a = ScalarMul (Base GetCurveParams) b.
Hypothesis Order_pos : 0 < Order GetCurveParams.
Hypothesis Cofactor_nonneg : 0 ≤ ToBigInt (Cofactor GetCurveParams).

(** X10: [Verify] reads the response [S] only modulo [Order]: under the
    contract of the curve package on the multiples of the base point, two
    signatures with the same [R] and responses congruent modulo [Order] get
    the same result. *)
Theorem Verify_response_modulo_Order (sig sig' : Signature) (message : Element)
    (pub : PublicKey hstate) :
  sig_R sig = sig_R sig' →
  0 ≤ ToBigIntRegular (sig_S sig) →
  0 ≤ ToBigIntRegular (sig_S sig') →
  ToBigIntRegular (sig_S sig) mod Order GetCurveParams
    = ToBigIntRegular (sig_S sig') mod Order GetCurveParams →
  Verify sig message pub = Verify sig' message pub.
Proof.
  intros HR Hs Hs' Hmod.
  assert (Verify_lhs sig = Verify_lhs sig') as Hl.
  { unfold Verify_lhs. rewrite !ScalarMul_mul by done.
    apply Base_order; [by apply Z.mul_nonneg_nonneg..|].
    rewrite <- Z.mul_mod_idemp_l, Hmod, Z.mul_mod_idemp_l by lia. done. }
  unfold Verify. rewrite !Verify_hram_spec, Hl.
  unfold Verify_rhs. by rewrite HR.
Qed.

End Malleability.

Section Equation.

Context {fld : Field} {crv : Curve} {h512 : Hash512}.
Context {hstate : Type} {hfunc : Hash hstate}.

(** The contract of the curve package, with the base point of order exactly
    [Order]: two multiples are equal only for scalars congruent modulo
    [Order]. *)
Hypothesis ScalarMul_mul : ∀ a b : Z, 0 ≤ a → 0 ≤ b →
  ScalarMul (ScalarMul (Base GetCurveParams) a) b
  = ScalarMul (Base GetCurveParams) (a * b).
Hypothesis ScalarMul_add : ∀ a b : Z, 0 ≤ a → 0 ≤ b →
  Add (ScalarMul (Base GetCurveParams) a) (ScalarMul (Base GetCurveParams) b)
  = ScalarMul (Base GetCurveParams) (a + b).
Hypothesis Base_order_iff : ∀ a b : Z, 0 ≤ a → 0 ≤ b →
  ScalarMul (Base GetCurveParams) a = ScalarMul (Base GetCurveParams) b
  ↔ a mod Order GetCurveParams = b mod Order GetCurveParams.
Hypothesis Base_on_curve : ∀ a : Z, 0 ≤ a →
  IsOnCurve (ScalarMul (Base GetCurveParams) a) = true.
Hypothesis Cofactor_nonneg : 0 ≤ ToBigInt (Cofactor GetCurveParams).

(** X11: when the key point is [a*Base] and [R] is [r*Base], [Verify]
    decides the congruence [S*cofactor = (a*hram + r)*cofactor] modulo
    [Order]. *)
Theorem Verify_multiples_of_Base (S : Element) (a r hram : Z) (message : Element)
    (hFunc hs : hstate) :
  0 ≤ a → 0 ≤ r → 0 ≤ hram → 0 ≤ ToBigIntRegular S →
  let A := ScalarMul (Base GetCurveParams) a in
  let R := ScalarMul (Base GetCurveParams) r in
  let c := ToBigInt (Cofactor GetCurveParams) in
  ChallengeComputation R A message hFunc = (hs, inr hram) →
  Verify (mkSignature R S) message (mkPublicKey A hFunc)
  = (bool_decide ((ToBigIntRegular S * c) mod Order GetCurveParams
                  = ((a * hram + r) * c) mod Order GetCurveParams), None, hs).
Proof.
  intros Ha Hr Hh Hs A R c Hc.
  assert (0 ≤ a * hram) by (by apply Z.mul_nonneg_nonneg).
  assert (0 ≤ ToBigIntRegular S * c) by (by apply Z.mul_nonneg_nonneg).
  assert (0 ≤ (a * hram + r) * c) by (apply Z.mul_nonneg_nonneg; lia).
  rewrite (Verify_unfold (mkSignature R S) message (mkPublicKey A hFunc) hs hram);
    [|by apply Base_on_curve|exact Hc].
  unfold Verify_lhs, Verify_rhs. cbn [sig_R sig_S pub_A]. fold c.
  rewrite ScalarMul_mul by done.
  unfold A, R. rewrite ScalarMul_mul, ScalarMul_add, ScalarMul_mul by lia.
  rewrite !Base_on_curve by done. cbn [negb].
  rewrite <- negb_andb.
  destruct (bool_decide_reflect ((ToBigIntRegular S * c) mod Order GetCurveParams
                  = ((a * hram + r) * c) mod Order GetCurveParams)) as [Heq|Hne].
  - apply Base_order_iff in Heq; [|done..]. rewrite Heq, !Equal_refl. done.
  - destruct (Equal _ _ && Equal _ _) eqn:He; [|done].
    apply andb_true_iff in He as [Hx Hy]. apply Equal_true in Hx, Hy.
    destruct Hne. apply Base_order_iff; [done..|]. by apply Point_eq.
Qed.

End Equation.

(** The idealised package and BLAKE2b meet the contracts. *)

Lemma le_split_nonneg (k : nat) (w : Z) :
  Forall (λ b, 0 ≤ b) (Blake2b.le_split k w).
Proof.
  revert w. induction k as [|k IH]; intros w; simpl; constructor; [|apply IH].
  apply Z.mod_pos_bound. lia.
Qed.

Lemma Sum512_nonneg (m : list byte) : Forall (λ b, 0 ≤ b) (Blake2b.Sum512 m).
Proof.
  unfold Blake2b.Sum512.
  destruct (Blake2b.absorb_blocks _ _ _ _) as [[h t] rest].
  apply Forall_join, Forall_fmap, Forall_true. intros w. apply le_split_nonneg.
Qed.

Lemma le_split_byte_string (k : nat) (w : Z) : byte_string (Blake2b.le_split k w).
Proof.
  revert w. induction k as [|k IH]; intros w; simpl; constructor; [|apply IH].
  apply Z.mod_pos_bound. lia.
Qed.

Lemma Sum512_byte_string (m : list byte) : byte_string (Blake2b.Sum512 m).
Proof.
  unfold Blake2b.Sum512.
  destruct (Blake2b.absorb_blocks _ _ _ _) as [[h t] rest].
  apply Forall_join, Forall_fmap, Forall_true. intros w. apply le_split_byte_string.
Qed.

Lemma Ideal_n_nonzero : Ideal.n ≠ 0.
Proof. vm_compute. discriminate. Qed.

Lemma Ideal_ScalarMul_mul (P : Point) (a b : Z) :
  @ScalarMul Ideal.curve (@ScalarMul Ideal.curve P a) b
  = @ScalarMul Ideal.curve P (a * b).
Proof.
  change (Ideal.point ((Ideal.val P * a) mod Ideal.n * b mod Ideal.n)
          = Ideal.point ((Ideal.val P * (a * b)) mod Ideal.n)).
  rewrite Z.mul_mod_idemp_l by apply Ideal_n_nonzero.
  by rewrite Z.mul_assoc.
Qed.

Lemma Ideal_ScalarMul_add (P : Point) (a b : Z) :
  @Add Ideal.curve (@ScalarMul Ideal.curve P a) (@ScalarMul Ideal.curve P b)
  = @ScalarMul Ideal.curve P (a + b).
Proof.
  change (Ideal.point (((Ideal.val P * a) mod Ideal.n + (Ideal.val P * b) mod Ideal.n)
                       mod Ideal.n)
          = Ideal.point ((Ideal.val P * (a + b)) mod Ideal.n)).
  rewrite <- Z.add_mod by apply Ideal_n_nonzero.
  by rewrite Z.mul_add_distr_l.
Qed.

(** ** The bn256 field *)

Lemma Bn256_raw_of_raw (v : Z) :
  0 ≤ v < 2 ^ 256 → Bn256.raw (Bn256.of_raw v) = v.
Proof.
  intros Hv. unfold Bn256.raw, Bn256.of_raw. cbn [l0 l1 l2 l3].
  change (2 ^ 128) with (2 ^ 64 * 2 ^ 64).
  change (2 ^ 192) with (2 ^ 64 * 2 ^ 64 * 2 ^ 64).
  rewrite <- !Z.div_div by lia.
  pose proof (Z.div_mod v (2 ^ 64) ltac:(lia)) as H0.
  pose proof (Z.div_mod (v / 2 ^ 64) (2 ^ 64) ltac:(lia)) as H1.
  pose proof (Z.div_mod (v / 2 ^ 64 / 2 ^ 64) (2 ^ 64) ltac:(lia)) as H2.
  assert (0 ≤ v / 2 ^ 64 / 2 ^ 64 / 2 ^ 64 < 2 ^ 64) as H3.
  { rewrite !Z.div_div by lia. split.
    - apply Z.div_pos; lia.
    - apply Z.div_lt_upper_bound; lia. }
  rewrite (Z.mod_small (v / 2 ^ 64 / 2 ^ 64 / 2 ^ 64)) by exact H3.
  lia.
Qed.

(** The scalar [New] keeps in the private key holds the secret integer
    reduced modulo the field modulus [q]. *)
Lemma Bn256_scalar_reduced (v : Z) :
  ToBigInt (FromMont (SetBigInt v)) = v mod Bn256.q.
Proof.
  assert (0 < Bn256.q) as Hq by (vm_compute; reflexivity).
  assert (Bn256.q < 2 ^ 256) as Hq' by (vm_compute; reflexivity).
  assert (∀ x, Bn256.regular (Bn256.mont x) = x mod Bn256.q) as Hreg.
  { intros x. unfold Bn256.regular, Bn256.mont.
    rewrite Bn256_raw_of_raw
      by (pose proof (Z.mod_pos_bound (x * Bn256.radix) Bn256.q Hq); lia).
    rewrite Z.mul_mod_idemp_l by lia.
    rewrite <- Z.mul_assoc, <- Z.mul_mod_idemp_r by lia.
    replace ((Bn256.radix * Bn256.radix_inv) mod Bn256.q) with 1
      by (vm_compute; reflexivity).
    by rewrite Z.mul_1_r. }
  change (Bn256.raw (Bn256.of_raw (Bn256.regular (Bn256.mont (v mod Bn256.q))))
          = v mod Bn256.q).
  rewrite Hreg, Z.mod_mod by lia.
  apply Bn256_raw_of_raw.
  pose proof (Z.mod_pos_bound v Bn256.q Hq). lia.
Qed.

(** On bn256 the key of [New] is consistent when the secret integer is
    below the field modulus. *)
Lemma Bn256_key_consistent (tmp : Z) :
  0 ≤ tmp < Bn256.q →
  ToBigInt (FromMont (SetBigInt tmp)) mod Order GetCurveParams
  = tmp mod Order GetCurveParams.
Proof.
  intros Htmp. rewrite Bn256_scalar_reduced.
  rewrite (Z.mod_small tmp Bn256.q) by exact Htmp. reflexivity.
Qed.

(** ** The package on the bn256 instances *)

(** The curve constants are consistent: the base point is on the curve and
    [order] times the base point is the neutral point (0, 1). *)
Example base_point_order :
  IsOnCurve (Base GetCurveParams) = true
  ∧ Bn256.affine (ScalarMul (Base GetCurveParams) Bn256.order) = (0, 1).
Proof. vm_compute. done. Qed.

(** BLAKE2b-512 of the empty string and of "abc" (RFC 7693, appendix A), and
    the first bytes of the digests of 128, 129 and 256 bytes 07, which take
    one, two and two blocks. *)
Example blake2b_vectors :
  SetBytes (Sum512 []) =
    0x786a02f742015903c6c6fd852552d272912f4740e15847618a86e217f71f5419d25e1031afee585313896444934eb04b903a685b1448b755d56f701afe9be2ce
  ∧ SetBytes (Sum512 [97; 98; 99]) =
    0xba80a53f981c4d0d6a2797b69f12f6e94c212f14685ac4b74b12bb6fdbffa2d17d87c5392aab792dc252d5de4533cc9518d38aa8dbf1925ab92386edd4009923
  ∧ take 8 (Sum512 (replicate 128 7)) = [57; 177; 4; 222; 19; 122; 217; 174]
  ∧ take 8 (Sum512 (replicate 129 7)) = [170; 77; 110; 119; 254; 194; 77; 24]
  ∧ take 8 (Sum512 (replicate 256 7)) = [241; 232; 233; 41; 226; 35; 8; 153].
Proof. vm_compute. done. Qed.

(** An error of the hash object's [Write] ends [Sign] and [Verify] with that
    error. *)
Example hash_error_propagates :
  Sign msg_one (mkPublicKey (pub_A pub0) ()) priv0
    = Some (Signature_zero, Some (errOther "write failed"), ())
  ∧ Verify sig7 msg_one (mkPublicKey (pub_A pub0) ())
    = (false, Some (errOther "write failed"), ()).
Proof. vm_compute. done. Qed.

(** For [seed7] the integer of [New] is below the field modulus, and signing
    then verifying [msg_one] succeeds. *)
Example round_trip_seed7 :
  New_tmp (Sum512 seed7) < Bn256.q
  ∧ round_trip seed7 [] msg_one = Some (None, (true, None)).
Proof. vm_compute. done. Qed.

(** The challenge is used as it is read from the digest: for [sig7] it is
    far above the group order. *)
Example challenge_not_reduced :
  (Sign_hram (sig_R sig7) msg_one pub7).2 = inr hram7
  ∧ Order GetCurveParams < hram7.
Proof. vm_compute. done. Qed.

(** On bn256 the response of [sig7] plus the group order is still below the
    field modulus, and [Verify] accepts the signature with that response. *)
Example Verify_accepts_shifted_response :
  Bn256.regular (sig_S sig7) + Bn256.order < Bn256.q
  ∧ Verify (mkSignature (sig_R sig7)
              (SetBigInt (ToBigIntRegular (sig_S sig7) + Bn256.order)))
       msg_one pub7
    = (true, None, absorbed7).
Proof. vm_compute. done. Qed.

(** The limbs of [msg_one] are [uint64]s. *)
Lemma msg_one_uint64 : uint64_limbs msg_one.
Proof. repeat constructor; vm_compute; discriminate || reflexivity. Qed.

(** C1 (fails on the code): for the all-zero seed, a BLAKE2b hash object and
    the message 1, [Sign] returns a signature without error and [Verify]
    returns [(false, nil)] on it.  The integer of [New] is above the field
    modulus [q]: the public key is that integer times the base point, while
    the scalar kept in the private key is the integer reduced modulo [q]. *)
Theorem C1_round_trip_fails_seed0 :
  round_trip seed0 [] msg_one = Some (None, (false, None))
  ∧ Bn256.q ≤ New_tmp (Sum512 seed0)
  ∧ ToBigInt (priv_scalar priv0) = New_tmp (Sum512 seed0) mod Bn256.q.
Proof. vm_compute. split; [done|]. split; [discriminate|done]. Qed.

(** C4 (fails on the code): for the all-zero seed neither the integer of
    [New] nor the scalar kept in the private key is clamped.  The integer has
    its top bit set and its three lowest bits set; the scalar, which is the
    integer modulo [q], has bit 254 clear and low bits 011. *)
Theorem C4_seed0_scalar_not_clamped :
  let tmp := New_tmp (Sum512 seed0) in
  let scalar := ToBigInt (priv_scalar priv0) in
  Z.testbit tmp 255 = true ∧ Z.land tmp 7 = 7 ∧ clamped tmp = false
  ∧ scalar = tmp mod Bn256.q
  ∧ Z.testbit scalar 254 = false ∧ Z.land scalar 7 = 3 ∧ clamped scalar = false.
Proof. vm_compute. done. Qed.

(** C5 (fails on the code): for the all-zero seed the integer of [New] is the
    little-endian value of bytes 1 to 32 of the pruned digest, not of bytes 0
    to 31: its top byte is byte 32 of the digest, the first byte of
    [randSrc]; changing byte 0 of the digest leaves the integer as it is and
    changing byte 32 changes it. *)
Theorem C5_seed0_scalar_bytes :
  let h := Sum512 seed0 in
  New_tmp h = le_bytes (take 32 (drop 1 (prune h)))
  ∧ New_tmp h ≠ le_bytes (take 32 (prune h))
  ∧ New_tmp h / 2 ^ 248 = h !!! 32%nat
  ∧ New_tmp (<[0%nat := 0]> h) = New_tmp h
  ∧ New_tmp (<[32%nat := 0]> h) ≠ New_tmp h.
Proof.
  vm_compute. split; [done|]. split; [discriminate|]. split; [done|].
  split; [done|discriminate].
Qed.

(** C7 (fails on the code): [forged_R] is off the curve, [pub0]'s point is
    on it, and [Verify] accepts the signature [(forged_R, 0)] under a hash
    object whose digest is the byte 1: R is never tested, and
    [R + 1 * A] is the neutral point. *)
Theorem C7_offcurve_R_accepted :
  IsOnCurve forged_R = false
  ∧ IsOnCurve (pub_A pub0_fixed) = true
  ∧ Bn256.affine (Add (ScalarMul (pub_A pub0_fixed) 1) forged_R) = (0, 1)
  ∧ Verify forged_sig msg_one pub0_fixed = (true, None, Fixed [1]).
Proof. vm_compute. done. Qed.

(** C9 (fails on the code): for the message 1 the second half of the buffer
    [Sign] hashes is the Montgomery limbs of the message, least significant
    limb first, each limb big-endian.  It is neither the canonical encoding
    [Bytes] of the message nor the big-endian encoding of the integer the
    limbs hold. *)
Theorem C9_nonce_buffer_msg_one :
  Sign_randSrc msg_one priv0 = Some (inr (priv_randSrc priv0 ++ limb_bytes msg_one))
  ∧ limb_bytes msg_one =
      [172; 150; 52; 28; 79; 255; 255; 251; 54; 252; 118; 149; 159; 96; 205; 41;
       102; 110; 163; 111; 120; 121; 70; 46; 14; 10; 119; 193; 154; 7; 223; 47]
  ∧ Bytes msg_one = replicate 31 0 ++ [1]
  ∧ be_split 32 (ToBigInt msg_one) =
      [14; 10; 119; 193; 154; 7; 223; 47; 102; 110; 163; 111; 120; 121; 70; 46;
       54; 252; 118; 149; 159; 96; 205; 41; 172; 150; 52; 28; 79; 255; 255; 251]
  ∧ Sign_randSrc msg_one priv0 ≠ Some (inr (priv_randSrc priv0 ++ Bytes msg_one))
  ∧ Sign_randSrc msg_one priv0
      ≠ Some (inr (priv_randSrc priv0 ++ be_split 32 (ToBigInt msg_one))).
Proof.
  vm_compute. do 4 (split; [done|]). split; discriminate.
Qed.

(** ** The theorems at concrete inputs *)

(** The hypotheses of C2 hold for the signature of [msg_one] under the key
    of [seed7], which [Verify] accepts. *)
Lemma C2_witness :
  IsOnCurve (pub_A pub7) = true
  ∧ ChallengeComputation (sig_R sig7) (pub_A pub7) msg_one (pub_HFunc pub7)
    = (absorbed7, inr hram7)
  ∧ IsOnCurve (Verify_lhs sig7) = true
  ∧ Verify sig7 msg_one pub7 = (true, None, absorbed7).
Proof.
  assert (IsOnCurve (pub_A pub7) = true) as HA by (vm_compute; reflexivity).
  assert (ChallengeComputation (sig_R sig7) (pub_A pub7) msg_one (pub_HFunc pub7)
          = (absorbed7, inr hram7)) as Hc by (vm_compute; reflexivity).
  assert (IsOnCurve (Verify_lhs sig7) = true) as Hl by (vm_compute; reflexivity).
  split; [exact HA|]. split; [exact Hc|]. split; [exact Hl|].
  apply (C2_verify_equation sig7 msg_one pub7 absorbed7 hram7 HA Hc Hl).
  vm_compute. split; reflexivity.
Defined.

(** The hypotheses of C3 hold on the bn256 curve for [msg_one] and the key
    of [seed7]; [Sign] returns [sig7]. *)
Lemma C3_witness :
  0 < Order GetCurveParams
  ∧ Sign msg_one pub7 priv7 = Some (sig7, None, absorbed7).
Proof.
  assert (0 < Order GetCurveParams) as HO by (vm_compute; reflexivity).
  split; [exact HO|].
  apply (C3_sign_response msg_one pub7 priv7 sig7 absorbed7 HO).
  exists (priv_randSrc priv7 ++ limb_bytes msg_one), hram7.
  vm_compute. repeat split.
Defined.

(** The zero point is off the bn256 curve, and [Verify] rejects that key. *)
Lemma C8_witness :
  IsOnCurve (pub_A pub_zero) = false
  ∧ Verify sig7 msg_one pub_zero = (false, Some errNotOnCurve, []).
Proof.
  assert (IsOnCurve (pub_A pub_zero) = false) as HA by (vm_compute; reflexivity).
  split; [exact HA|].
  apply (C8_offcurve_key_rejected sig7 msg_one pub_zero HA).
Defined.

(** The contracts of the round trip hold for the idealised package with
    BLAKE2b, where every seed gives a consistent key. *)
Lemma round_trip_consistent_key_witness :
  length (Sum512 seed0) = 64%nat
  ∧ round_trip (fld := Ideal.fr) (crv := Ideal.curve) seed0 ([] : list byte) msg_one
    = Some (None, (true, None)).
Proof.
  assert (length (Sum512 seed0) = 64%nat) as Hlen by (vm_compute; reflexivity).
  split; [exact Hlen|].
  apply (round_trip_consistent_key (fld := Ideal.fr) (crv := Ideal.curve)
           (hfunc := blake2b_Hash)).
  - intros a b _ _. apply Ideal_ScalarMul_mul.
  - intros a b _ _. apply Ideal_ScalarMul_add.
  - intros a b _ _ Hab.
    change (Ideal.point ((1 * a) mod Ideal.n) = Ideal.point ((1 * b) mod Ideal.n)).
    change (a mod Ideal.n = b mod Ideal.n) in Hab.
    by rewrite !Z.mul_1_l, Hab.
  - intros a _. reflexivity.
  - vm_compute; reflexivity.
  - vm_compute; discriminate.
  - intros v Hv. change (v mod Ideal.n = v). apply Z.mod_small. exact Hv.
  - apply Sum512_nonneg.
  - intros hs. apply Sum512_nonneg.
  - intros hs hs'. reflexivity.
  - intros hs p. reflexivity.
  - exact Hlen.
  - change ((New_tmp (Sum512 seed0) mod Ideal.n) mod Ideal.n
            = New_tmp (Sum512 seed0) mod Ideal.n).
    apply Z.mod_mod. apply Ideal_n_nonzero.
Defined.

(** [New] on the all-zero seed, with the bn256 packages. *)
Lemma New_key_pair_witness :
  length (Sum512 seed0) = 64%nat
  ∧ priv_randSrc priv0 = drop 32 (Sum512 seed0).
Proof.
  assert (length (Sum512 seed0) = 64%nat) as Hlen by (vm_compute; reflexivity).
  split; [exact Hlen|].
  unfold priv0.
  rewrite (New_key_pair (fld := Bn256.fr) (crv := Bn256.curve) seed0 [] Hlen).
  reflexivity.
Defined.

(** The signature [sig7] carries the nonce point of its message and key. *)
Lemma Sign_nonce_point_witness :
  length (priv_randSrc priv7) = 32%nat
  ∧ Sign msg_one pub7 priv7 = Some (sig7, None, absorbed7)
  ∧ sig_R sig7 =
      ScalarMul (Base GetCurveParams)
        (SetBytes (take 32 (Sum512 (priv_randSrc priv7 ++ limb_bytes msg_one)))).
Proof.
  assert (length (priv_randSrc priv7) = 32%nat) as Hlen by (vm_compute; reflexivity).
  assert (Sign msg_one pub7 priv7 = Some (sig7, None, absorbed7)) as HS
    by (vm_compute; reflexivity).
  split; [exact Hlen|]. split; [exact HS|].
  exact (Sign_nonce_point msg_one pub7 priv7 sig7 absorbed7 Hlen HS).
Defined.

(** [Sign] on [msg_one] and the key of [seed7] ends in its third outcome. *)
Lemma Sign_outcomes_witness :
  length (priv_randSrc priv7) = 32%nat
  ∧ Order GetCurveParams ≠ 0
  ∧ ∃ s : Z,
      0 ≤ s < Z.abs (Order GetCurveParams)
      ∧ Sign msg_one pub7 priv7
        = Some (mkSignature (sig_R sig7) (SetBigInt s), None, absorbed7).
Proof.
  assert (length (priv_randSrc priv7) = 32%nat) as Hlen by (vm_compute; reflexivity).
  assert (Order GetCurveParams ≠ 0) as HO by (vm_compute; discriminate).
  split; [exact Hlen|]. split; [exact HO|].
  assert (ScalarMul (Base GetCurveParams)
            (SetBytes (take 32 (Sum512 (priv_randSrc priv7 ++ limb_bytes msg_one))))
          = sig_R sig7) as HR by (vm_compute; reflexivity).
  assert (IsOnCurve (sig_R sig7) = true) as Hon by (vm_compute; reflexivity).
  assert (ChallengeComputation (sig_R sig7) (pub_A pub7) msg_one (pub_HFunc pub7)
          = (absorbed7, inr hram7)) as Hc by (vm_compute; reflexivity).
  pose proof (Sign_outcomes msg_one pub7 priv7 Hlen HO) as H.
  cbv zeta in H. rewrite HR, Hon, Hc in H.
  destruct H as [[Hoff _]|[(_ & hs & e & Hc' & _)|(_ & hs & hram & s & Hc' & _ & Hs & HS)]].
  - discriminate Hoff.
  - discriminate Hc'.
  - apply (f_equal fst) in Hc'. change (absorbed7 = hs) in Hc'.
    rewrite <- Hc' in HS. exists s. split; [exact Hs|exact HS].
Defined.


(** Two private keys with the same [randSrc] and two ways of writing the
    message, with the same buffer. *)
Lemma Sign_randSrc_injective_witness :
  length (priv_randSrc priv7) = 32%nat
  ∧ uint64_limbs msg_one
  ∧ Sign_randSrc msg_one priv7 = Sign_randSrc msg_one_limbs priv7_bare
  ∧ priv_randSrc priv7 = priv_randSrc priv7_bare
  ∧ msg_one = msg_one_limbs.
Proof.
  assert (length (priv_randSrc priv7) = 32%nat) as Hlen by (vm_compute; reflexivity).
  assert (length (priv_randSrc priv7_bare) = 32%nat) as Hlen' by (vm_compute; reflexivity).
  assert (uint64_limbs msg_one) as Hm by apply msg_one_uint64.
  assert (uint64_limbs msg_one_limbs) as Hm' by apply msg_one_uint64.
  assert (Sign_randSrc msg_one priv7
          = Some (inr (priv_randSrc priv7 ++ limb_bytes msg_one))) as H1
    by (vm_compute; reflexivity).
  assert (Sign_randSrc msg_one_limbs priv7_bare
          = Some (inr (priv_randSrc priv7 ++ limb_bytes msg_one))) as H2
    by (vm_compute; reflexivity).
  split; [exact Hlen|]. split; [exact Hm|].
  split; [exact (eq_trans H1 (eq_sym H2))|].
  exact (Sign_randSrc_injective msg_one msg_one_limbs priv7 priv7_bare _
           Hlen Hlen' Hm Hm' H1 H2).
Defined.

(** The secret integer [New] derives from the all-zero seed. *)
Lemma New_secret_integer_witness :
  length (Sum512 seed0) = 64%nat
  ∧ byte_string (Sum512 seed0)
  ∧ ∃ tmp : Z,
      pub_A pub0 = ScalarMul (Base GetCurveParams) tmp
      ∧ priv_scalar priv0 = FromMont (SetBigInt tmp)
      ∧ 2 ^ 246 ≤ tmp < 2 ^ 256
      ∧ Z.testbit tmp 246 = true
      ∧ Z.testbit tmp 247 = false
      ∧ tmp / 2 ^ 248 = priv_randSrc priv0 !!! 0%nat.
Proof.
  assert (length (Sum512 seed0) = 64%nat) as Hlen by (vm_compute; reflexivity).
  assert (byte_string (Sum512 seed0)) as Hb by apply Sum512_byte_string.
  split; [exact Hlen|]. split; [exact Hb|].
  exact (New_secret_integer (fld := Bn256.fr) (crv := Bn256.curve) seed0
           ([] : list byte) Hlen Hb).
Defined.

(** In the idealised package, the responses [5] and [5 + Order] get the
    same result. *)
Lemma Verify_response_modulo_Order_witness :
  @Verify Ideal.fr Ideal.curve _ blake2b_Hash
     (mkSignature (Ideal.point 3) (mkElement 5 0 0 0)) msg_one
     (mkPublicKey (Ideal.point 7) [])
  = @Verify Ideal.fr Ideal.curve _ blake2b_Hash
      (mkSignature (Ideal.point 3) (mkElement (5 + Ideal.n) 0 0 0)) msg_one
      (mkPublicKey (Ideal.point 7) []).
Proof.
  apply (Verify_response_modulo_Order (fld := Ideal.fr) (crv := Ideal.curve)
           (hfunc := blake2b_Hash)).
  - intros a b _ _. apply Ideal_ScalarMul_mul.
  - intros a b _ _ Hab.
    change (Ideal.point ((1 * a) mod Ideal.n) = Ideal.point ((1 * b) mod Ideal.n)).
    change (a mod Ideal.n = b mod Ideal.n) in Hab.
    by rewrite !Z.mul_1_l, Hab.
  - vm_compute; reflexivity.
  - vm_compute; discriminate.
  - reflexivity.
  - vm_compute; discriminate.
  - vm_compute; discriminate.
  - vm_compute; reflexivity.
Defined.

(** In the idealised package, for the key point [11*Base] and [R = 3*Base]:
    [Verify] accepts the response [11*hram + 3] and rejects [11*hram + 4]. *)
Lemma Verify_multiples_of_Base_witness :
  @ChallengeComputation Ideal.fr _ blake2b_Hash ideal_R ideal_A msg_one []
    = (ideal_absorbed, inr ideal_hram)
  ∧ @Verify Ideal.fr Ideal.curve _ blake2b_Hash
      (mkSignature ideal_R (mkElement ((11 * ideal_hram + 3) mod Ideal.n) 0 0 0))
      msg_one (mkPublicKey ideal_A [])
    = (true, None, ideal_absorbed)
  ∧ @Verify Ideal.fr Ideal.curve _ blake2b_Hash
      (mkSignature ideal_R (mkElement ((11 * ideal_hram + 4) mod Ideal.n) 0 0 0))
      msg_one (mkPublicKey ideal_A [])
    = (false, None, ideal_absorbed).
Proof.
  assert (@ChallengeComputation Ideal.fr _ blake2b_Hash ideal_R ideal_A msg_one []
          = (ideal_absorbed, inr ideal_hram)) as Hc by (vm_compute; reflexivity).
  assert (0 ≤ ideal_hram) as Hh by (vm_compute; discriminate).
  assert (∀ S : Element, 0 ≤ @ToBigIntRegular Ideal.fr S →
    @Verify Ideal.fr Ideal.curve _ blake2b_Hash (mkSignature ideal_R S) msg_one
      (mkPublicKey ideal_A [])
    = (bool_decide ((l0 S * 8) mod Ideal.n = ((11 * ideal_hram + 3) * 8) mod Ideal.n),
       None, ideal_absorbed)) as HV.
  { intros S HS.
    apply (Verify_multiples_of_Base (fld := Ideal.fr) (crv := Ideal.curve)
             (hfunc := blake2b_Hash)) with (a := 11) (r := 3) (hram := ideal_hram).
    - intros a b _ _. apply Ideal_ScalarMul_mul.
    - intros a b _ _. apply Ideal_ScalarMul_add.
    - intros a b _ _.
      change (Ideal.point ((1 * a) mod Ideal.n) = Ideal.point ((1 * b) mod Ideal.n)
              ↔ a mod Ideal.n = b mod Ideal.n).
      rewrite !Z.mul_1_l. split; [intros [= Heq]; exact Heq|intros ->; reflexivity].
    - intros a _. reflexivity.
    - vm_compute; discriminate.
    - vm_compute; discriminate.
    - vm_compute; discriminate.
    - exact Hh.
    - exact HS.
    - exact Hc. }
  split; [exact Hc|]. split.
  - rewrite HV by (vm_compute; discriminate). vm_compute. reflexivity.
  - rewrite HV by (vm_compute; discriminate). vm_compute. reflexivity.
Defined.
